(** * server.js: session lifecycle, rate-limited send and bulk dispatch

    A shallow embedding of [src/server.js].  The two process-wide registries
    [sessions] and [messageTracker] are finite maps keyed by the session id,
    timestamps are the integer milliseconds that [Date.now()] returns, and
    the asynchronous collaborators (the protocol socket, the QR writer, the
    HTTP fetch, the timers) are calls answered by an arbitrary world. *)

From stdpp Require Import base gmap sets list strings sorting.
From Stdlib Require Import ZArith Lia.

Open Scope Z_scope.

(** ** Rate limiting configuration (server.js, lines 23-26) *)

Definition MESSAGE_LIMIT : nat := 10.
Definition TIME_WINDOW : Z := 10 * 60 * 1000.

(** [Math.ceil(x / d)] for an integer [x] and a positive integer [d].  The
    numerators met here are far below 2^53, where the rounded double quotient
    and the exact one have the same ceiling. *)
Definition ceil_div (x d : Z) : Z := - ((- x) / d).

Module RateWindow.

(** Line 145: [w.filter(ts => now - ts < TIME_WINDOW)]. *)
Definition prune (now : Z) (w : list Z) : list Z :=
  filter (λ ts, now - ts < TIME_WINDOW) w.

(** Line 148: [Math.ceil((TIME_WINDOW - (now - w[0])) / 1000)].  The
    branch is entered with [w.length >= MESSAGE_LIMIT], so [w[0]] exists;
    on an empty array JavaScript computes NaN, written [0] here. *)
Definition retryAfter (now : Z) (w : list Z) : Z :=
  match w with
  | [] => 0
  | oldest :: _ => ceil_div (TIME_WINDOW - (now - oldest)) 1000
  end.

Inductive admission := Accepted | Rejected (retryAfterSeconds : Z).

(** Lines 145-156 on one id's array: prune, compare the length with the
    limit, push [now] unless the limit is reached. *)
Definition check (now : Z) (w : list Z) : list Z * admission :=
  let w1 := prune now w in
  if decide (MESSAGE_LIMIT ≤ length w1)%nat
  then (w1, Rejected (retryAfter now w1))
  else (w1 ++ [now], Accepted).

End RateWindow.

Import RateWindow.

(** Lines 141-156 on the registry: a missing entry is first created empty
    (line 142), the pruned array is stored back (line 145) also when the
    send is then rejected, and the admitted timestamp is pushed in place
    (line 156). *)
Definition rate_limit (messageTracker : gmap string (list Z))
    (sessionId : string) (now : Z) : gmap string (list Z) * admission :=
  let w0 := default [] (messageTracker !! sessionId) in
  let '(w, a) := check now w0 in
  (<[sessionId := w]> messageTracker, a).

(** A history of one registry: admission checks, and the deletions that the
    connection handler performs on a close event (lines 79 and 90). *)
Inductive tracker_op :=
| OpCheck (sessionId : string) (now : Z)
| OpDelete (sessionId : string).

Definition apply_op (mt : gmap string (list Z)) (o : tracker_op)
    : gmap string (list Z) :=
  match o with
  | OpCheck sessionId now => (rate_limit mt sessionId now).1
  | OpDelete sessionId => delete sessionId mt
  end.

Definition replay (ops : list tracker_op) : gmap string (list Z) :=
  foldl apply_op ∅ ops.

(** The admission checks of one id at the given times, in order: the
    timestamps admitted so far and the registry. *)
Fixpoint serve (mt : gmap string (list Z)) (sessionId : string)
    (admitted times : list Z) : list Z * gmap string (list Z) :=
  match times with
  | [] => (admitted, mt)
  | now :: rest =>
      match rate_limit mt sessionId now with
      | (mt', Accepted) => serve mt' sessionId (admitted ++ [now]) rest
      | (mt', Rejected _) => serve mt' sessionId admitted rest
      end
  end.

(** The same on the id's array alone. *)
Fixpoint admissions (admitted w : list Z) (times : list Z)
    : list Z * list Z :=
  match times with
  | [] => (admitted, w)
  | now :: rest =>
      match check now w with
      | (w', Accepted) => admissions (admitted ++ [now]) w' rest
      | (w', Rejected _) => admissions admitted w' rest
      end
  end.

(** The timestamps of the trailing interval of length [TIME_WINDOW] that
    ends at [T]: those [ts] with [0 <= T - ts < TIME_WINDOW]. *)
Definition trailing (T : Z) (l : list Z) : list Z :=
  filter (λ ts, T - TIME_WINDOW < ts ≤ T) l.

(** ** Process state and collaborators *)

(** One entry of [sessions] (line 42).  The socket is an opaque handle. *)
Record Session := mkSession {
  sock : nat;
  isConnected : bool;
  currentQR : string;
}.

(** The shared mutable state of the process: the two registries and the
    paths that exist on disk, relative to [__dirname]. *)
Record State := mkState {
  sessions : gmap string Session;
  messageTracker : gmap string (list Z);
  files : gset string;
}.

Definition set_sessions (f : gmap string Session → gmap string Session)
    (s : State) : State :=
  mkState (f (sessions s)) (messageTracker s) (files s).
Definition set_messageTracker
    (f : gmap string (list Z) → gmap string (list Z)) (s : State) : State :=
  mkState (sessions s) (f (messageTracker s)) (files s).
Definition set_files (f : gset string → gset string) (s : State) : State :=
  mkState (sessions s) (messageTracker s) (f (files s)).

(** What [sock.sendMessage] is given: [{text}] or [{image, mimetype?, caption}]. *)
Inductive content :=
| Text (message : string)
| Image (buffer : string) (mimetype : option string) (caption : string).

(** The awaited calls into collaborators. *)
Inductive call :=
| OnWhatsApp (sk : nat) (jid : string)
| SendMessage (sk : nat) (jid : string) (c : content)
| AxiosGet (url : string)
| Delay (ms : Z)
| QrToFile (path qr : string)
| UseMultiFileAuthState (path : string)
| FetchLatestBaileysVersion
| MakeWASocket.

(** What each call resolves to.  [onWhatsApp] resolves to [undefined] or to
    an array whose entries carry an [exists] flag; [sendMessage] to an
    acknowledgement; [axios.get] to the response bytes; [makeWASocket]
    returns the new socket. *)
Definition reply_ty (c : call) : Type :=
  match c with
  | OnWhatsApp _ _ => option (list bool)
  | SendMessage _ _ _ => nat
  | AxiosGet _ => string
  | MakeWASocket => nat
  | _ => unit
  end.

(** A settled promise: fulfilled, or rejected with an error whose
    [message] is kept. *)
Inductive res (A : Type) := Ok (a : A) | Thrown (message : string).
Arguments Ok {A} a.
Arguments Thrown {A} message.

(** A handler run up to its next suspension point.  [Await s c k] is a
    handler suspended on [await c] having left the shared state [s]; it
    resumes with the settled call and the state it then finds. *)
Inductive prog (A : Type) : Type :=
| Done (s : State) (r : res A)
| Await (s : State) (c : call) (k : res (reply_ty c) → State → prog A).
Arguments Done {A} s r.
Arguments Await {A} s c k.

Definition M (A : Type) : Type := State → prog A.

Definition ret {A} (a : A) : M A := λ s, Done s (Ok a).
Definition throw {A} (message : string) : M A := λ s, Done s (Thrown message).

Fixpoint bind_prog {A B} (p : prog A) (f : A → M B) : prog B :=
  match p with
  | Done s (Ok a) => f a s
  | Done s (Thrown e) => Done s (Thrown e)
  | Await s c k => Await s c (λ r s', bind_prog (k r s') f)
  end.
Definition bind {A B} (m : M A) (f : A → M B) : M B :=
  λ s, bind_prog (m s) f.

(** [try { m } catch (err) { h err }] *)
Fixpoint catch_prog {A} (p : prog A) (h : string → M A) : prog A :=
  match p with
  | Done s (Ok a) => Done s (Ok a)
  | Done s (Thrown e) => h e s
  | Await s c k => Await s c (λ r s', catch_prog (k r s') h)
  end.
Definition try_catch {A} (m : M A) (h : string → M A) : M A :=
  λ s, catch_prog (m s) h.

(** [await c]: a rejection is rethrown at the await. *)
Definition await (c : call) : M (reply_ty c) :=
  λ s, Await s c (λ r s', Done s' r).

(** [await new Promise(resolve => setTimeout(resolve, ms))]: the promise
    has no reject path, so the handler always resumes normally. *)
Definition delay (ms : Z) : M unit :=
  λ s, Await s (Delay ms) (λ _ s', Done s' (Ok tt)).

Definition get : M State := λ s, Done s (Ok s).
Definition modify (f : State → State) : M unit := λ s, Done (f s) (Ok tt).

Global Instance M_ret : MRet M := @ret.
Global Instance M_bind : MBind M := λ A B f m, bind m f.

(** The world answers every call, knowing the calls made so far. *)
Definition world := ∀ (past : list call) (c : call), res (reply_ty c).

(** Runs a handler to completion with no other handler interleaved: the
    handler resumes on the state it left.  The result is the final state,
    the handler's outcome and the calls it made, in order; [past] is what
    the world has been asked before. *)
Fixpoint run {A} (w : world) (past : list call) (p : prog A)
    : State * res A * list call :=
  match p with
  | Done s r => (s, r, [])
  | Await s c k =>
      let '(s', r, tr) := run w (past ++ [c]) (k (w past c) s) in
      (s', r, c :: tr)
  end.

(** A handler that writes nothing to the shared state: whenever it stops
    or suspends, the state is the one it was last resumed with. *)
Fixpoint passive {A} (s : State) (p : prog A) : Prop :=
  match p with
  | Done s' _ => s' = s
  | Await s' c k => s' = s ∧ ∀ r s'', passive s'' (k r s'')
  end.

Definition is_send (c : call) : bool :=
  match c with
  | SendMessage _ _ _ => true
  | _ => false
  end.
Definition is_delay (c : call) : bool :=
  match c with
  | Delay _ => true
  | _ => false
  end.

(** ** Session lifecycle (server.js, lines 28-97) *)

(** [path.join(__dirname, 'auth', sessionId)] and the QR paths, relative to
    [__dirname] and for ids that [path.join] leaves as they are. *)
Definition auth_path (sessionId : string) : string := "auth/" +:+ sessionId.
Definition qr_dir : string := "qr_codes".
Definition qr_path (sessionId : string) : string :=
  "qr_codes/" +:+ sessionId +:+ ".png".


(** [q] is [p] or lies below the directory [p]. *)
Definition at_or_under (p q : string) : Prop :=
  q = p ∨ String.prefix (p +:+ "/") q = true.
Global Instance at_or_under_dec p q : Decision (at_or_under p q).
Proof. unfold at_or_under. apply _. Defined.

(** The directories above [p]: for each ["/"] of [p], the text before it. *)
Fixpoint dirs_above (before p : string) : list string :=
  match p with
  | EmptyString => []
  | String c rest =>
      if String.eqb (String c EmptyString) "/"
      then before :: dirs_above (before +:+ "/") rest
      else dirs_above (before +:+ String c EmptyString) rest
  end.
Definition ancestors (p : string) : list string := dirs_above "" p.

(** What exists after a recursive [mkdir] of [p]: [p], the directories
    above it, and what was there. *)
Definition mkdir_paths (p : string) (X : gset string) : gset string :=
  foldr (λ q acc, {[q]} ∪ acc) X (p :: ancestors p).

(** [fs.mkdirSync(p, {recursive: true})], [fs.rmSync(p, {recursive: true,
    force: true})], [fs.existsSync(p)] and [fs.unlinkSync(p)]. *)
Definition mkdirSync (p : string) : M unit :=
  modify (set_files (mkdir_paths p)).
Definition rmSync (p : string) : M unit :=
  modify (set_files (filter (λ q : string, ¬ at_or_under p q))).
Definition existsSync (p : string) : M bool :=
  s ← get; mret (bool_decide (p ∈ files s)).
Definition unlinkSync (p : string) : M unit := modify (set_files (.∖ {[p]})).

(** [startSession] (lines 29-97).  [makeWASocket] returns at once; it is
    logged among the calls because the world chooses the socket.  The two
    [sock.ev.on] registrations make the process call [connection_update]
    below for this id. *)
Definition startSession (sessionId : string) : M unit :=
  let authPath := auth_path sessionId in
  _ ← mkdirSync authPath;
  _ ← await (UseMultiFileAuthState authPath);
  _ ← await FetchLatestBaileysVersion;
  sk ← await MakeWASocket;
  modify (set_sessions <[sessionId := mkSession sk false ""]>).

Inductive connection_state := Connecting | Open | Close.
Global Instance connection_state_eq_dec : EqDecision connection_state.
Proof. solve_decision. Defined.

(** The argument of the ['connection.update'] listener: each field may be
    absent; [statusCode] is [lastDisconnect?.error?.output?.statusCode]. *)
Record update := mkUpdate {
  connection : option connection_state;
  statusCode : option Z;
  qr : option string;
}.

(** JavaScript truthiness of an optional string. *)
Definition truthy (o : option string) : bool :=
  match o with
  | Some v => negb (String.eqb v "")
  | None => false
  end.

(** [sessions[sessionId].field = v]: a TypeError when the entry is gone. *)
Definition set_field (sessionId field : string) (f : Session → Session)
    : M unit :=
  s ← get;
  match sessions s !! sessionId with
  | Some _ => modify (set_sessions (alter f sessionId))
  | None =>
      throw ("Cannot set properties of undefined (setting '" +:+ field +:+ "')")
  end.

(** The ['connection.update'] listener (lines 46-95).  [loggedOut] is
    Baileys' [DisconnectReason.loggedOut]. *)
Definition connection_update (loggedOut : Z) (sessionId : string)
    (u : update) : M unit :=
  _ ← mkdirSync qr_dir;
  let qrPath := qr_path sessionId in
  _ ← (if truthy (qr u) then
         let code := default "" (qr u) in
         _ ← await (QrToFile qrPath code);
         _ ← modify (set_files ({[qrPath]} ∪.));
         set_field sessionId "currentQR"
           (λ x, mkSession (sock x) (isConnected x) code)
       else mret tt);
  _ ← (if decide (connection u = Some Open) then
         set_field sessionId "isConnected"
           (λ x, mkSession (sock x) true (currentQR x))
       else mret tt);
  if decide (connection u = Some Close) then
    if decide (statusCode u = Some loggedOut) then
      _ ← rmSync (auth_path sessionId);
      _ ← (existsSync qrPath ≫= λ e : bool,
           if e then unlinkSync qrPath else mret tt);
      _ ← modify (set_sessions (delete sessionId));
      modify (set_messageTracker (delete sessionId))
    else
      _ ← (existsSync qrPath ≫= λ e : bool,
           if e then unlinkSync qrPath else mret tt);
      _ ← modify (set_sessions (delete sessionId));
      _ ← modify (set_messageTracker (delete sessionId));
      startSession sessionId
  else mret tt.

(** ** Single send (server.js, lines 131-193) *)

Definition suffix : string := "@s.whatsapp.net".

(** [number.includes('@s.whatsapp.net') ? number : `${number}@s.whatsapp.net`] *)
Definition to_jid (number : string) : string :=
  match String.index 0 suffix number with
  | Some _ => number
  | None => number +:+ suffix
  end.

(** The parsed request when [number] is a string ([send_body] and
    [post_send] below take any [number]).  [number] and [message] are the
    strings of the body; [file] is the uploaded [image] part (buffer and
    mimetype), [image] the optional URL field of the body. *)
Record send_request := mkSend {
  number : string;
  message : string;
  file : option (string * string);
  image : option string;
}.

(** What a handler answers, with the HTTP status of each shape. *)
Inductive status := StSent | StSentRetry | StFailed | StSkipped.

Definition status_text (st : status) : string :=
  match st with
  | StSent => "sent"
  | StSentRetry => "sent (retry)"
  | StFailed => "failed"
  | StSkipped => "skipped"
  end.

Record entry := mkEntry {
  e_number : string;
  e_status : status;
  e_reason : option string;
}.

Record summary := mkSummary {
  total : nat;
  processed : nat;
  sent : nat;
  failed : nat;
  skipped : nat;
}.

Inductive response :=
| SessionNotConnected
| RateLimitExceeded (retryAfter : Z)
| NumberNotRegistered
| MessageSent (data : nat)
| ServerError (error : string)
| InvalidNumbersOrMessage
| BulkReport (sm : summary) (report : list entry).

Definition http_status (r : response) : Z :=
  match r with
  | SessionNotConnected | InvalidNumbersOrMessage => 400
  | RateLimitExceeded _ => 429
  | NumberNotRegistered => 404
  | ServerError _ => 500
  | MessageSent _ | BulkReport _ _ => 200
  end.

(** [sessions[sessionId]?.isConnected] *)
Definition connected (s : State) (sessionId : string) : option Session :=
  match sessions s !! sessionId with
  | Some x => if isConnected x then Some x else None
  | None => None
  end.

(** [check?.exists] for an array entry that may be missing, and
    [result?.[0]?.exists]. *)
Definition exists_flag (check : option bool) : bool := default false check.
Definition first_exists (result : option (list bool)) : bool :=
  exists_flag (result ≫= head).

(** Lines 161-192: the part of the handler that follows the push. *)
Definition send_after_admission (sk : nat) (req : send_request)
    : M response :=
  let jid := to_jid (number req) in
  try_catch
    (result ← await (OnWhatsApp sk jid);
     if negb (first_exists result) then mret NumberNotRegistered
     else
       msgResponse ←
         match file req with
         | Some (buffer, mimetype) =>
             await (SendMessage sk jid
                      (Image buffer (Some mimetype) (message req)))
         | None =>
             if truthy (image req) then
               imageRes ← await (AxiosGet (default "" (image req)));
               await (SendMessage sk jid (Image imageRes None (message req)))
             else await (SendMessage sk jid (Text (message req)))
         end;
       mret (MessageSent msgResponse))
    (λ err, mret (ServerError err)).

(** [POST /send/:sessionId]; [now] is what [Date.now()] returns at line 141. *)
Definition send (sessionId : string) (now : Z) (req : send_request)
    : M response :=
  s ← get;
  match connected s sessionId with
  | None => mret SessionNotConnected
  | Some x =>
      let '(mt, a) := rate_limit (messageTracker s) sessionId now in
      _ ← modify (set_messageTracker (λ _, mt));
      match a with
      | Rejected retryAfter => mret (RateLimitExceeded retryAfter)
      | Accepted => send_after_admission (sock x) req
      end
  end.

(** ** Bulk send (server.js, lines 195-281) *)

Record bulk_request := mkBulk {
  numbers : option (list string);
  bulk_message : string;
  retryFailed : bool;
}.

(** The handler's local variables [report], [successCount], [failCount]
    and [skippedCount].  Every write to them is the last thing its branch
    does, so no write is followed by a throw inside the same [try]. *)
Record tally := mkTally {
  report : list entry;
  successCount : nat;
  failCount : nat;
  skippedCount : nat;
}.

Definition push_sent (n : string) (st : status) (t : tally) : tally :=
  mkTally (report t ++ [mkEntry n st None])
          (S (successCount t)) (failCount t) (skippedCount t).
Definition push_failed (n reason : string) (t : tally) : tally :=
  mkTally (report t ++ [mkEntry n StFailed (Some reason)])
          (successCount t) (S (failCount t)) (skippedCount t).
Definition push_skipped (n : string) (t : tally) : tally :=
  mkTally (report t ++ [mkEntry n StSkipped (Some "Not registered on WhatsApp")])
          (successCount t) (failCount t) (S (skippedCount t)).

(** How the outer [try] statement of the loop body is left: by falling out
    of it, or by the [continue] of line 231. *)
Inductive flow := FallThrough | Continue.

(** The message of the [TypeError] that [const [check] = undefined]
    throws.  The wording is the engine's; nothing below depends on it. *)
Definition not_iterable : string :=
  "(intermediate value) is not iterable".

(** Lines 234-256: the first attempt and, under [retryFailed], the retry. *)
Definition attempt (sk : nat) (jid msg : string) (retry : bool)
    (n : string) (t : tally) : M tally :=
  try_catch
    (_ ← await (SendMessage sk jid (Text msg));
     mret (push_sent n StSent t))
    (λ sendErr,
       if retry then
         try_catch
           (_ ← delay 2000;
            _ ← await (SendMessage sk jid (Text msg));
            mret (push_sent n StSentRetry t))
           (λ retryErr, mret (push_failed n ("Retry failed: " +:+ retryErr) t))
       else mret (push_failed n sendErr t)).

(** Lines 220-265: one iteration of the loop, for the recipient [n]. *)
Definition process (sk : nat) (msg : string) (retry : bool)
    (n : string) (t : tally) : M tally :=
  let jid := to_jid n in
  r ← try_catch
        (result ← await (OnWhatsApp sk jid);
         match result with
         | None => throw not_iterable
         | Some l =>
             if negb (exists_flag (head l)) then
               mret (Continue, push_skipped n t)
             else
               t' ← attempt sk jid msg retry n t;
               mret (FallThrough, t')
         end)
        (λ err, mret (FallThrough, push_failed n err t));
  match r.1 with
  | Continue => mret r.2
  | FallThrough => _ ← delay 500; mret r.2
  end.

(** Lines 219-266: [for (let i = 0; i < total; i++)]. *)
Fixpoint loop (sk : nat) (msg : string) (retry : bool)
    (ns : list string) (t : tally) : M tally :=
  match ns with
  | [] => mret t
  | n :: rest => t' ← process sk msg retry n t; loop sk msg retry rest t'
  end.

(** [POST /send-bulk/:sessionId] when the elements of [numbers] are
    strings ([bulk_body] and [post_send_bulk] below take any elements).
    [numbers] is [None] when the body holds no array. *)
Definition send_bulk (sessionId : string) (req : bulk_request)
    : M response :=
  match numbers req with
  | None | Some [] => mret InvalidNumbersOrMessage
  | Some ns =>
      if String.eqb (bulk_message req) "" then mret InvalidNumbersOrMessage
      else
        s ← get;
        match connected s sessionId with
        | None => mret SessionNotConnected
        | Some x =>
            t ← loop (sock x) (bulk_message req) (retryFailed req) ns
                  (mkTally [] 0 0 0);
            let processedCount :=
              (successCount t + failCount t + skippedCount t)%nat in
            mret (BulkReport
                    (mkSummary (length ns) processedCount (successCount t)
                       (failCount t) (skippedCount t))
                    (report t))
        end
  end.

(** ** Reading a report *)

(** The counter that an entry's status belongs to: ['sent'] and
    ['sent (retry)'] count as sent. *)
Definition is_sent (st : status) : bool :=
  match st with StSent | StSentRetry => true | _ => false end.
Definition is_failed (st : status) : bool :=
  match st with StFailed => true | _ => false end.
Definition is_skipped (st : status) : bool :=
  match st with StSkipped => true | _ => false end.

Definition count_status (P : status → bool) (l : list entry) : nat :=
  length (filter (λ e, P (e_status e)) l).

(** The three counters agree with the entries pushed so far. *)
Definition tally_ok (t : tally) : Prop :=
  successCount t = count_status is_sent (report t)
  ∧ failCount t = count_status is_failed (report t)
  ∧ skippedCount t = count_status is_skipped (report t).

Definition send_calls (tr : list call) : nat :=
  length (filter (λ c, is_send c) tr).

(** ** Sample data *)

Definition ten_at_once : list tracker_op :=
  replicate 10 (OpCheck "s" 0).

Definition sample_times : list Z := [0; 0; 5; 600000; 600004].

(** A connected session ["s"] on socket 3, with nothing on disk. *)
Definition st_connected : State :=
  mkState (<["s" := mkSession 3 true ""]> ∅) ∅ ∅.

(** Worlds.  Every number but ["B"] is registered and every send succeeds; *)
Definition world_B_missing : world := λ past c,
  match c return res (reply_ty c) with
  | OnWhatsApp _ jid => Ok (Some [negb (String.eqb jid "B@s.whatsapp.net")])
  | SendMessage _ _ _ => Ok 7%nat
  | AxiosGet _ => Ok ""
  | MakeWASocket => Ok 4%nat
  | _ => Ok tt
  end.

(** the first send of the run fails and the later ones succeed; *)
Definition world_flaky : world := λ past c,
  match c return res (reply_ty c) with
  | OnWhatsApp _ jid => Ok (Some [true])
  | SendMessage _ _ _ =>
      if existsb is_send past then Ok 7%nat else Thrown "timed out"
  | AxiosGet _ => Ok ""
  | MakeWASocket => Ok 4%nat
  | _ => Ok tt
  end.

(** every send fails; *)
Definition world_no_send : world := λ past c,
  match c return res (reply_ty c) with
  | OnWhatsApp _ jid => Ok (Some [true])
  | SendMessage _ _ _ => Thrown "timed out"
  | AxiosGet _ => Ok ""
  | MakeWASocket => Ok 4%nat
  | _ => Ok tt
  end.

(** the existence query itself fails. *)
Definition world_query_fails : world := λ past c,
  match c return res (reply_ty c) with
  | OnWhatsApp _ jid => Thrown "Connection Closed"
  | SendMessage _ _ _ => Ok 7%nat
  | AxiosGet _ => Ok ""
  | MakeWASocket => Ok 4%nat
  | _ => Ok tt
  end.

Definition bulk_ABC : bulk_request := mkBulk (Some ["A"; "B"; "C"]) "hi" false.

Definition no_tally : tally := mkTally [] 0 0 0.

Definition st_at_limit : State :=
  mkState (<["s" := mkSession 3 true ""]> ∅)
          (<["s" := [0; 1; 2; 3; 4; 5; 6; 7; 8; 9]]> ∅) ∅.

Definition send_text_B : send_request := mkSend "B" "hi" None None.
Definition send_text_A : send_request := mkSend "A" "hi" None None.

(** Baileys' [DisconnectReason.loggedOut] and [connectionLost]. *)
Definition code_loggedOut : Z := 401.
Definition code_connectionLost : Z := 408.

(** The session ["s"] connected, with a window, its credentials and its QR
    image on disk. *)
Definition st_paired : State :=
  mkState (<["s" := mkSession 3 true "2@abc"]> ∅)
          (<["s" := [1000; 2000]]> ∅)
          {["auth"; "auth/s"; "auth/s/creds.json"; "qr_codes";
            "qr_codes/s.png"; "auth/t"]}.

Definition close_with (code : Z) : update :=
  mkUpdate (Some Close) (Some code) None.

(** ** The pairing image (server.js, lines 99-129) *)

Inductive qr_response := AlreadyConnected | QrFile (path : string) | QrTimeout.

Definition qr_http_status (r : qr_response) : Z :=
  match r with
  | AlreadyConnected | QrFile _ => 200
  | QrTimeout => 504
  end.

(** [waitForQR] (lines 114-121).  [clock k] is what the [k]-th reading of
    [Date.now()] returns: reading 0 is [start], reading [i] is the one of
    the [i]-th loop test.  The loop is bounded by the clock alone, so the
    model takes fuel and answers [None] when it runs out. *)
Fixpoint waitForQR (clock : nat → Z) (qrPath : string) (timeout : Z)
    (fuel i : nat) : M (option bool) :=
  match fuel with
  | O => mret None
  | S fuel' =>
      if decide (clock i - clock 0%nat < timeout) then
        existsSync qrPath ≫= λ e : bool,
          if e then mret (Some true)
          else _ ← delay 500; waitForQR clock qrPath timeout fuel' (S i)
      else mret (Some false)
  end.

(** [sessions] is a plain object, so reading a key that it does not own
    falls back on [Object.prototype].  These are the keys found there; what
    they hold is truthy and has no [isConnected].  No session is ever
    started under such a key (see [get_qr]), so only the reads of the HTTP
    handlers can meet one. *)
Definition object_prototype_keys : list string :=
  ["constructor"; "__proto__"; "hasOwnProperty"; "isPrototypeOf";
   "propertyIsEnumerable"; "toLocaleString"; "toString"; "valueOf";
   "__defineGetter__"; "__defineSetter__"; "__lookupGetter__";
   "__lookupSetter__"].

Definition inherited (key : string) : bool :=
  bool_decide (key ∈ object_prototype_keys).

(** [GET /qr/:sessionId].  The test [!sessions[sessionId]] of line 107 is
    true when the id has no entry of its own and names nothing inherited. *)
Definition get_qr (clock : nat → Z) (fuel : nat) (sessionId : string)
    : M (option qr_response) :=
  s ← get;
  match connected s sessionId with
  | Some _ => mret (Some AlreadyConnected)
  | None =>
      _ ← match sessions s !! sessionId with
          | None =>
              if inherited sessionId then mret tt else startSession sessionId
          | Some _ => mret tt
          end;
      let qrPath := qr_path sessionId in
      qrReady ← waitForQR clock qrPath 10000 fuel 1;
      mret (match qrReady with
            | Some true => Some (QrFile qrPath)
            | Some false => Some QrTimeout
            | None => None
            end)
  end.

(** Lines 123-128: the answer for what [waitForQR] returned. *)
Definition qr_answer (sessionId : string) (qrReady : option bool)
    : M (option qr_response) :=
  mret (match qrReady with
        | Some true => Some (QrFile (qr_path sessionId))
        | Some false => Some QrTimeout
        | None => None
        end).

(** Runs a handler while other handlers run during its suspensions:
    [env past' s] is the shared state that they leave when the handler is
    resumed from the call that ends [past']. *)
Fixpoint run_with {A} (env : list call → State → State) (w : world)
    (past : list call) (p : prog A) : State * res A * list call :=
  match p with
  | Done s r => (s, r, [])
  | Await s c k =>
      let '(s', r, tr) :=
        run_with env w (past ++ [c]) (k (w past c) (env (past ++ [c]) s)) in
      (s', r, c :: tr)
  end.

(** ** More readings of histories and logs *)

Definition op_id (o : tracker_op) : string :=
  match o with
  | OpCheck sessionId _ | OpDelete sessionId => sessionId
  end.

Definition is_query (c : call) : bool :=
  match c with
  | OnWhatsApp _ _ => true
  | _ => false
  end.

Definition is_pace (c : call) : bool :=
  match c with
  | Delay ms => ms =? 500
  | _ => false
  end.

Definition pace_calls (tr : list call) : nat :=
  length (filter (λ c, is_pace c) tr).

(** A clock that stands still until the first loop test and then advances
    by the 500 ms of each timer. *)
Definition ticking (k : nat) : Z := 500 * Z.of_nat (pred k).

Definition first_ten : list Z := [0; 1; 2; 3; 4; 5; 6; 7; 8; 9].

(** A request that carries both an uploaded file and an image URL. *)
Definition send_file_and_url : send_request :=
  mkSend "A" "hi" (Some ("bytes", "image/png")) (Some "http://x/y.png").

(** The existence query resolves to [undefined]; to an empty array. *)
Definition world_undefined : world := λ past c,
  match c return res (reply_ty c) with
  | OnWhatsApp _ jid => Ok None
  | SendMessage _ _ _ => Ok 7%nat
  | AxiosGet _ => Ok ""
  | MakeWASocket => Ok 4%nat
  | _ => Ok tt
  end.

Definition world_empty_array : world := λ past c,
  match c return res (reply_ty c) with
  | OnWhatsApp _ jid => Ok (Some [])
  | SendMessage _ _ _ => Ok 7%nat
  | AxiosGet _ => Ok ""
  | MakeWASocket => Ok 4%nat
  | _ => Ok tt
  end.

Definition bulk_AA_retry : bulk_request := mkBulk (Some ["A"; "A"]) "hi" true.

(** The session ["s"] registered but not yet connected; with the image of
    an earlier pairing on disk and no session at all. *)
Definition st_pairing : State :=
  mkState (<["s" := mkSession 3 false ""]> ∅) ∅ {["auth/s"; "qr_codes"]}.

Definition st_stale_image : State :=
  mkState ∅ ∅ {["auth/s"; "qr_codes"; "qr_codes/s.png"]}.

(** The image of ["s"] appears while the handler waits for its second
    timer. *)
Definition env_image_after_two : list call → State → State := λ past s,
  if decide (length past = 2%nat) then set_files (union {[qr_path "s"]}) s
  else s.

(** ** Bodies whose recipients are not strings (lines 159 and 221)

    [number] and the elements of [numbers] are whatever the parsed body
    holds.  The handlers look at a recipient in two ways only: they call
    [number.includes('@s.whatsapp.net')] and, when that is false, render it
    in a template literal.  A recipient is kept as what these two show:
    - a string;
    - an array, on which [includes] is [Array.prototype.includes] and so
      asks for an element equal to the suffix, and which renders as its
      elements joined by commas;
    - a number, a boolean, [null], an object or a field that is absent: the
      call [number.includes(...)] throws a [TypeError], kept by its
      message.
    An array that holds the suffix is its own [jid] and every array is its
    own [number] in the report: calls and entries record it by its
    rendering. *)
Inductive recipient :=
| RString (n : string)
| RArray (hasSuffix : bool) (text : string)
| RNoIncludes (typeError : string).

Definition has_includes (r : recipient) : bool :=
  match r with
  | RNoIncludes _ => false
  | _ => true
  end.

(** How a recipient is recorded. *)
Definition label (r : recipient) : string :=
  match r with
  | RString n => n
  | RArray _ text => text
  | RNoIncludes _ => ""
  end.

(** [number.includes('@s.whatsapp.net') ? number : `${number}@s.whatsapp.net`],
    for any recipient. *)
Definition jid_of (r : recipient) : res string :=
  match r with
  | RString n => Ok (to_jid n)
  | RArray hasSuffix text => Ok (if hasSuffix then text else text +:+ suffix)
  | RNoIncludes typeError => Thrown typeError
  end.

(** The body of [POST /send/:sessionId] with any [number]. *)
Record send_body := mkSendBody {
  b_number : recipient;
  b_message : string;
  b_file : option (string * string);
  b_image : option string;
}.

Definition body_of (req : send_request) : send_body :=
  mkSendBody (RString (number req)) (message req) (file req) (image req).

(** Lines 161-192, for the address [jid]. *)
Definition send_to (sk : nat) (jid : string) (b : send_body) : M response :=
  try_catch
    (result ← await (OnWhatsApp sk jid);
     if negb (first_exists result) then mret NumberNotRegistered
     else
       msgResponse ←
         match b_file b with
         | Some (buffer, mimetype) =>
             await (SendMessage sk jid
                      (Image buffer (Some mimetype) (b_message b)))
         | None =>
             if truthy (b_image b) then
               imageRes ← await (AxiosGet (default "" (b_image b)));
               await (SendMessage sk jid (Image imageRes None (b_message b)))
             else await (SendMessage sk jid (Text (b_message b)))
         end;
       mret (MessageSent msgResponse))
    (λ err, mret (ServerError err)).

(** [POST /send/:sessionId] on any body.  Line 159 stands between the push
    of line 156 and the [try] of line 161: what it throws leaves the
    handler with [now] stored and nothing answered. *)
Definition post_send (sessionId : string) (now : Z) (b : send_body)
    : M response :=
  s ← get;
  match connected s sessionId with
  | None => mret SessionNotConnected
  | Some x =>
      let '(mt, a) := rate_limit (messageTracker s) sessionId now in
      _ ← modify (set_messageTracker (λ _, mt));
      match a with
      | Rejected retryAfter => mret (RateLimitExceeded retryAfter)
      | Accepted =>
          match jid_of (b_number b) with
          | Thrown typeError => throw typeError
          | Ok jid => send_to (sock x) jid b
          end
      end
  end.

(** The body of [POST /send-bulk/:sessionId] with any elements in
    [numbers]. *)
Record bulk_body := mkBulkBody {
  b_numbers : option (list recipient);
  b_bulk_message : string;
  b_retryFailed : bool;
}.

Definition bulk_body_of (req : bulk_request) : bulk_body :=
  mkBulkBody (option_map (map RString) (numbers req)) (bulk_message req)
    (retryFailed req).

(** Lines 223-265: one iteration of the loop once [jid] is computed; [n] is
    how the recipient is recorded. *)
Definition process_with (sk : nat) (msg : string) (retry : bool)
    (jid n : string) (t : tally) : M tally :=
  r ← try_catch
        (result ← await (OnWhatsApp sk jid);
         match result with
         | None => throw not_iterable
         | Some l =>
             if negb (exists_flag (head l)) then
               mret (Continue, push_skipped n t)
             else
               t' ← attempt sk jid msg retry n t;
               mret (FallThrough, t')
         end)
        (λ err, mret (FallThrough, push_failed n err t));
  match r.1 with
  | Continue => mret r.2
  | FallThrough => _ ← delay 500; mret r.2
  end.

(** Lines 220-265 for any recipient: line 221 is outside the [try] of
    line 225, so what it throws leaves the loop and the handler. *)
Definition process_any (sk : nat) (msg : string) (retry : bool)
    (r : recipient) (t : tally) : M tally :=
  match jid_of r with
  | Thrown typeError => throw typeError
  | Ok jid => process_with sk msg retry jid (label r) t
  end.

Fixpoint loop_any (sk : nat) (msg : string) (retry : bool)
    (rs : list recipient) (t : tally) : M tally :=
  match rs with
  | [] => mret t
  | r :: rest =>
      t' ← process_any sk msg retry r t; loop_any sk msg retry rest t'
  end.

(** [POST /send-bulk/:sessionId] on any body. *)
Definition post_send_bulk (sessionId : string) (b : bulk_body)
    : M response :=
  match b_numbers b with
  | None | Some [] => mret InvalidNumbersOrMessage
  | Some rs =>
      if String.eqb (b_bulk_message b) "" then mret InvalidNumbersOrMessage
      else
        s ← get;
        match connected s sessionId with
        | None => mret SessionNotConnected
        | Some x =>
            t ← loop_any (sock x) (b_bulk_message b) (b_retryFailed b) rs
                  (mkTally [] 0 0 0);
            let processedCount :=
              (successCount t + failCount t + skippedCount t)%nat in
            mret (BulkReport
                    (mkSummary (length rs) processedCount (successCount t)
                       (failCount t) (skippedCount t))
                    (report t))
        end
  end.

(** The recipients that a job reaches: those before the first one on
    which line 221 throws. *)
Fixpoint reached (rs : list recipient) : list recipient :=
  match rs with
  | [] => []
  | r :: rest => if has_includes r then r :: reached rest else []
  end.

(** ** The outcome of a recipient, read off the answers

    What the report says about one recipient and which calls are made for
    it, as a table over what the collaborators answer: the query throws,
    resolves without an array, reports that the number does not exist, or
    the number exists and the first send succeeds, fails without retry,
    fails and the retry succeeds, fails twice. *)
Definition outcome (w : world) (past : list call) (sk : nat)
    (msg : string) (retry : bool) (jid n : string) : entry * list call :=
  let q := OnWhatsApp sk jid in
  let m := SendMessage sk jid (Text msg) in
  match w past q with
  | Thrown e => (mkEntry n StFailed (Some e), [q; Delay 500])
  | Ok None => (mkEntry n StFailed (Some not_iterable), [q; Delay 500])
  | Ok (Some l) =>
      match head l with
      | Some true =>
          match w (past ++ [q]) m with
          | Ok _ => (mkEntry n StSent None, [q; m; Delay 500])
          | Thrown e1 =>
              if retry then
                match w (past ++ [q; m; Delay 2000]) m with
                | Ok _ =>
                    (mkEntry n StSentRetry None,
                     [q; m; Delay 2000; m; Delay 500])
                | Thrown e2 =>
                    (mkEntry n StFailed (Some ("Retry failed: " +:+ e2)),
                     [q; m; Delay 2000; m; Delay 500])
                end
              else (mkEntry n StFailed (Some e1), [q; m; Delay 500])
          end
      | _ => (mkEntry n StSkipped (Some "Not registered on WhatsApp"), [q])
      end
  end.

(** The outcomes of the recipients that a job reaches, each read off the
    answers given after the calls made for the recipients before it. *)
Fixpoint outcomes (w : world) (past : list call) (sk : nat)
    (msg : string) (retry : bool) (rs : list recipient)
    : list (entry * list call) :=
  match rs with
  | [] => []
  | r :: rest =>
      match jid_of r with
      | Thrown _ => []
      | Ok jid =>
          let o := outcome w past sk msg retry jid (label r) in
          o :: outcomes w (past ++ o.2) sk msg retry rest
      end
  end.

(** The counters that a report stands for. *)
Definition tally_of (rep : list entry) : tally :=
  mkTally rep (count_status is_sent rep) (count_status is_failed rep)
    (count_status is_skipped rep).

(** The calls that a job makes for one recipient it reaches: the
    existence query of the recipient's address comes first and is the only
    query, and what is sent is the message as text to that address, at most
    twice, at most once without [retryFailed]. *)
Definition recipient_calls (sk : nat) (msg : string) (retry : bool)
    (r : recipient) (seg : list call) : Prop :=
  ∃ jid,
    jid_of r = Ok jid
    ∧ head seg = Some (OnWhatsApp sk jid)
    ∧ filter (λ c, is_query c) seg = [OnWhatsApp sk jid]
    ∧ (send_calls seg ≤ if retry then 2 else 1)%nat
    ∧ Forall (λ c, is_send c = true → c = SendMessage sk jid (Text msg)) seg.

(** *** Sample bodies *)

(** [{"numbers": ["A", 123, "C"], "message": "hi"}] *)
Definition bulk_A_123_C : bulk_body :=
  mkBulkBody
    (Some [RString "A"; RNoIncludes "number.includes is not a function";
           RString "C"])
    "hi" false.

(** [{"numbers": [123], "message": "hi"}] *)
Definition bulk_123 : bulk_body :=
  mkBulkBody (Some [RNoIncludes "number.includes is not a function"])
    "hi" false.

(** [{"numbers": ["A", ["B", "C"]], "message": "hi"}] *)
Definition bulk_A_array : bulk_body :=
  mkBulkBody (Some [RString "A"; RArray false "B,C"]) "hi" false.

(** [{"number": 923001234567, "message": "hi"}] and a body without
    [number]. *)
(** [{"numbers": ["A", "B", "C"], "message": "hi"}] *)
Definition bulk_body_ABC : bulk_body :=
  mkBulkBody (Some [RString "A"; RString "B"; RString "C"]) "hi" false.

(** [{"numbers": ["A", "A"], "message": "hi", "retryFailed": true}] *)
Definition bulk_body_AA_retry : bulk_body :=
  mkBulkBody (Some [RString "A"; RString "A"]) "hi" true.

Definition send_number_body : send_body :=
  mkSendBody (RNoIncludes "number.includes is not a function") "hi" None None.
Definition send_no_number_body : send_body :=
  mkSendBody
    (RNoIncludes "Cannot read properties of undefined (reading 'includes')")
    "hi" None None.

(** ** The process as a sequence of handler runs *)

(** One handler run to completion with no other handler in between: the
    shared state before and after.  The two POST handlers are there on
    bodies of strings and on any body. *)
Inductive handles : State → State → Prop :=
| handles_event (w : world) past loggedOut sessionId u s :
    handles s (run w past (connection_update loggedOut sessionId u s)).1.1
| handles_get_qr (w : world) past clock fuel sessionId s :
    handles s (run w past (get_qr clock fuel sessionId s)).1.1
| handles_send (w : world) past sessionId now req s :
    handles s (run w past (send sessionId now req s)).1.1
| handles_send_bulk (w : world) past sessionId req s :
    handles s (run w past (send_bulk sessionId req s)).1.1
| handles_post_send (w : world) past sessionId now b s :
    handles s (run w past (post_send sessionId now b s)).1.1
| handles_post_send_bulk (w : world) past sessionId b s :
    handles s (run w past (post_send_bulk sessionId b s)).1.1.

Definition windows_within_limit (s : State) : Prop :=
  ∀ sessionId w,
    messageTracker s !! sessionId = Some w → (length w ≤ MESSAGE_LIMIT)%nat.

(** * Properties *)

(** ** The rate limiter *)

Example check_ex1 :
  check 600000 [0; 1; 2] = ([1; 2; 600000], Accepted).
Proof. reflexivity. Qed.

Example check_ex2 :
  check 1500 [0; 1; 2; 3; 4; 5; 6; 7; 8; 9]
  = ([0; 1; 2; 3; 4; 5; 6; 7; 8; 9], Rejected 599).
Proof. vm_compute. reflexivity. Qed.

Example rate_limit_ex :
  (rate_limit (<["a" := [5]]> ∅) "b" 7).1 !! "b" = Some [7].
Proof. vm_compute. reflexivity. Qed.

Lemma ceil_div_bounds x d :
  0 < d → d * (ceil_div x d - 1) < x ≤ d * ceil_div x d.
Proof.
  intros Hd. unfold ceil_div.
  pose proof (Z.div_mod (- x) d) as E.
  pose proof (Z.mod_pos_bound (- x) d Hd) as B.
  nia.
Qed.

Lemma elem_of_prune now w ts :
  ts ∈ prune now w ↔ ts ∈ w ∧ now - TIME_WINDOW < ts.
Proof. unfold prune. rewrite list_elem_of_filter. intuition lia. Qed.

Lemma length_prune now w : (length (prune now w) ≤ length w)%nat.
Proof. apply length_filter. Qed.

Lemma prune_prune now later w :
  now ≤ later → prune later (prune now w) = prune later w.
Proof.
  intros Hle. unfold prune. rewrite list_filter_filter.
  apply list_filter_iff. intros ts. lia.
Qed.

Lemma filter_length_mono {A} (P Q : A → Prop)
    `{!∀ x, Decision (P x)} `{!∀ x, Decision (Q x)} (l : list A) :
  (∀ x, P x → Q x) → (length (filter P l) ≤ length (filter Q l))%nat.
Proof.
  intros HPQ. induction l as [|x l IH]; [done|].
  rewrite !filter_cons.
  destruct (decide (P x)) as [HP|HP]; destruct (decide (Q x)) as [HQ|HQ];
    simpl; try lia.
  destruct HQ. by apply HPQ.
Qed.

Lemma check_admitted now w :
  (length (prune now w) < MESSAGE_LIMIT)%nat →
  check now w = (prune now w ++ [now], Accepted).
Proof. intros H. unfold check. case_decide; [lia|done]. Qed.

Lemma check_rejected now w :
  (MESSAGE_LIMIT ≤ length (prune now w))%nat →
  check now w = (prune now w, Rejected (retryAfter now (prune now w))).
Proof. intros H. unfold check. case_decide; [done|lia]. Qed.

Lemma check_length now w :
  (length w ≤ MESSAGE_LIMIT)%nat → (length (check now w).1 ≤ MESSAGE_LIMIT)%nat.
Proof.
  intros H. pose proof (length_prune now w). unfold check.
  case_decide; simpl; [lia|]. rewrite length_app. simpl. lia.
Qed.

Lemma check_window now w ts :
  ts ∈ (check now w).1 → ts ∈ prune now w ∨ ts = now.
Proof.
  unfold check. case_decide; simpl; [by left|].
  rewrite elem_of_app, list_elem_of_singleton. tauto.
Qed.

(** Every window of a registry that a history produces is within the limit. *)
Lemma replay_length ops sessionId w :
  replay ops !! sessionId = Some w → (length w ≤ MESSAGE_LIMIT)%nat.
Proof.
  unfold replay. revert sessionId w.
  induction ops as [|o ops IH] using rev_ind; intros sessionId w.
  - simpl. by rewrite lookup_empty.
  - rewrite foldl_app. simpl. destruct o as [i now|i]; simpl.
    + unfold rate_limit.
      destruct (check now (default [] (foldl apply_op ∅ ops !! i)))
        as [w' a] eqn:E. simpl.
      destruct (decide (i = sessionId)) as [->|Hne].
      * rewrite lookup_insert_eq. intros [= <-].
        replace w' with (check now (default [] (foldl apply_op ∅ ops !! sessionId))).1
          by (by rewrite E).
        apply check_length.
        destruct (foldl apply_op ∅ ops !! sessionId) as [w0|] eqn:E0; simpl.
        -- by eapply IH.
        -- unfold MESSAGE_LIMIT. lia.
      * rewrite lookup_insert_ne by done. apply IH.
    + destruct (decide (i = sessionId)) as [->|Hne].
      * by rewrite lookup_delete_eq.
      * rewrite lookup_delete_ne by done. apply IH.
Qed.

(** C1.  The admission check of [POST /send/:sessionId] first prunes the
    id's window: a timestamp stays exactly when [now - ts < TIME_WINDOW], so
    every timestamp older than [now - TIME_WINDOW] is removed (and so is one
    that is exactly [TIME_WINDOW] old), in the order they had.  If fewer than
    [MESSAGE_LIMIT] timestamps are left, [now] is appended and the send is
    admitted; otherwise the send is rejected and the seconds to wait are the
    ceiling of [(TIME_WINDOW - (now - oldest)) / 1000], [oldest] being the
    first timestamp left. *)
Theorem rate_limit_admission (mt : gmap string (list Z)) (sessionId : string)
    (now : Z) :
  let w0 := default [] (mt !! sessionId) in
  let pruned := prune now w0 in
  (∀ ts, ts ∈ w0 → ts < now - TIME_WINDOW → ts ∉ pruned)
  ∧ (∀ ts, ts ∈ pruned ↔ ts ∈ w0 ∧ now - ts < TIME_WINDOW)
  ∧ pruned `sublist_of` w0
  ∧ ((length pruned < MESSAGE_LIMIT)%nat →
       rate_limit mt sessionId now
       = (<[sessionId := pruned ++ [now]]> mt, Accepted))
  ∧ ((MESSAGE_LIMIT ≤ length pruned)%nat →
       ∃ oldest rest r,
         pruned = oldest :: rest
         ∧ rate_limit mt sessionId now
           = (<[sessionId := pruned]> mt, Rejected r)
         ∧ r = ceil_div (TIME_WINDOW - (now - oldest)) 1000
         ∧ 1000 * (r - 1) < TIME_WINDOW - (now - oldest) ≤ 1000 * r).
Proof.
  intros w0 pruned. split; [|split; [|split; [|split]]].
  - intros ts _ Hold [_ Hin]%elem_of_prune. lia.
  - intros ts. unfold pruned. rewrite elem_of_prune. intuition lia.
  - apply sublist_filter.
  - intros Hlt. unfold rate_limit. fold w0.
    by rewrite (check_admitted now w0 Hlt).
  - intros Hge. unfold rate_limit. fold w0.
    rewrite (check_rejected now w0 Hge). fold pruned.
    destruct pruned as [|oldest rest] eqn:E.
    + simpl in Hge. unfold MESSAGE_LIMIT in Hge. lia.
    + exists oldest, rest, (ceil_div (TIME_WINDOW - (now - oldest)) 1000).
      split; [done|]. split; [done|]. split; [done|].
      apply ceil_div_bounds. lia.
Qed.

(** The rejecting branch of C1 on a full window, one and a half seconds
    after ten sends. *)
Lemma rate_limit_admission_witness :
  ∃ oldest rest r,
    prune 1500 [0; 1; 2; 3; 4; 5; 6; 7; 8; 9] = oldest :: rest
    ∧ rate_limit (messageTracker st_at_limit) "s" 1500
      = (<["s" := prune 1500 [0; 1; 2; 3; 4; 5; 6; 7; 8; 9]]>
           (messageTracker st_at_limit), Rejected r)
    ∧ r = ceil_div (TIME_WINDOW - (1500 - oldest)) 1000
    ∧ 1000 * (r - 1) < TIME_WINDOW - (1500 - oldest) ≤ 1000 * r.
Proof.
  apply (proj2 (proj2 (proj2 (proj2
           (rate_limit_admission (messageTracker st_at_limit) "s" 1500))))).
  vm_compute. lia.
Defined.

(** C3.  Whatever the history of the registry, a rejected check returns a
    number of seconds that is not negative, and a check of the same id made
    that many seconds later, or at any later time, is admitted: the oldest
    timestamp is by then [TIME_WINDOW] old and is pruned, which leaves fewer
    than [MESSAGE_LIMIT] timestamps. *)
Theorem retry_after_is_enough (ops : list tracker_op) (sessionId : string)
    (now r : Z) (mt' : gmap string (list Z)) :
  rate_limit (replay ops) sessionId now = (mt', Rejected r) →
  0 ≤ r
  ∧ ∀ later, now + 1000 * r ≤ later →
      ∃ w, rate_limit mt' sessionId later
           = (<[sessionId := w ++ [later]]> mt', Accepted).
Proof.
  unfold rate_limit.
  set (w0 := default [] (replay ops !! sessionId)).
  assert (length w0 ≤ MESSAGE_LIMIT)%nat as Hlen.
  { subst w0. destruct (replay ops !! sessionId) as [w|] eqn:E; simpl.
    - by eapply replay_length.
    - unfold MESSAGE_LIMIT. lia. }
  unfold check. case_decide as Hge; [|intros [= _ ?]; done].
  intros [= <- <-].
  pose proof (length_prune now w0) as Hp.
  destruct (prune now w0) as [|oldest rest] eqn:E.
  { simpl in Hge. unfold MESSAGE_LIMIT in Hge. lia. }
  assert (oldest ∈ prune now w0) as [_ Hold]%elem_of_prune
    by (rewrite E; left).
  simpl.
  pose proof (ceil_div_bounds (TIME_WINDOW - (now - oldest)) 1000 ltac:(lia))
    as [_ Hup].
  split; [lia|].
  intros later Hlater. rewrite lookup_insert_eq. simpl.
  exists (prune later (oldest :: rest)).
  assert (length (prune later (oldest :: rest)) < MESSAGE_LIMIT)%nat as Hlt.
  { unfold prune. rewrite filter_cons_False by lia.
    pose proof (length_filter (λ ts, later - ts < TIME_WINDOW) rest).
    simpl in Hp. lia. }
  case_decide; [lia|done].
Qed.

Lemma retry_after_is_enough_witness :
  0 ≤ 599
  ∧ ∀ later, 1000 + 1000 * 599 ≤ later →
      ∃ w, rate_limit (<["s" := replicate 10 0]> (replay ten_at_once)) "s" later
           = (<["s" := w ++ [later]]>
                (<["s" := replicate 10 0]> (replay ten_at_once)), Accepted).
Proof.
  apply (retry_after_is_enough ten_at_once "s" 1000 599).
  vm_compute. reflexivity.
Defined.

(** *** Histories of one id with non-decreasing times *)

Lemma admissions_snoc admitted w times now :
  admissions admitted w (times ++ [now])
  = let '(a1, w1) := admissions admitted w times in
    match check now w1 with
    | (w', Accepted) => (a1 ++ [now], w')
    | (w', Rejected _) => (a1, w')
    end.
Proof.
  revert admitted w. induction times as [|t times IH]; intros admitted w; simpl.
  - by destruct (check now w) as [w' [|r]].
  - destruct (check t w) as [w' [|r]]; apply IH.
Qed.

Lemma admissions_window_length admitted w times :
  (length w ≤ MESSAGE_LIMIT)%nat →
  (length (admissions admitted w times).2 ≤ MESSAGE_LIMIT)%nat.
Proof.
  revert admitted w. induction times as [|t times IH]; intros admitted w Hw;
    simpl; [done|].
  pose proof (check_length t w Hw) as Hc.
  destruct (check t w) as [w' [|r]]; by apply IH.
Qed.

Lemma admissions_window_elem admitted w times ts :
  ts ∈ (admissions admitted w times).2 → ts ∈ w ∨ ts ∈ times.
Proof.
  revert admitted w. induction times as [|t times IH]; intros admitted w;
    simpl; [by left|].
  pose proof (check_window t w ts) as Hc.
  destruct (check t w) as [w' [|r]]; simpl in Hc; intros Hin;
    apply IH in Hin as [Hin|Hin]; try (right; by right);
    apply Hc in Hin as [[? _]%elem_of_prune| ->]; auto; right; left.
Qed.

(** With the times of the checks in non-decreasing order the stored window
    is, as far as any later pruning can tell, the list of all admitted
    timestamps; and no trailing interval holds more than [MESSAGE_LIMIT]
    admitted timestamps. *)
Lemma admissions_trailing times : ∀ admitted w lo,
  StronglySorted Z.le times →
  Forall (λ t, lo ≤ t) times →
  (∀ now, lo ≤ now → prune now w = prune now admitted) →
  (∀ T, (length (trailing T admitted) ≤ MESSAGE_LIMIT)%nat) →
  ∀ T, (length (trailing T (admissions admitted w times).1) ≤ MESSAGE_LIMIT)%nat.
Proof.
  induction times as [|t times IH]; intros admitted w lo Hs Hlo Hw Htr;
    simpl; [done|].
  apply StronglySorted_inv in Hs as [Hs Hle].
  apply Forall_cons in Hlo as [Hlot Hlo].
  unfold check. case_decide as Hfull; simpl.
  - apply (IH _ _ t); [done|done| |done].
    intros now Hnow. rewrite prune_prune by done. apply Hw. lia.
  - apply (IH _ _ t); [done|done| |].
    + intros now Hnow. unfold prune at 1 3. rewrite !filter_app.
      fold (prune now (prune t w)) (prune now admitted).
      rewrite prune_prune by done. f_equal. apply Hw. lia.
    + intros T. unfold trailing. rewrite filter_app, length_app.
      fold (trailing T admitted).
      rewrite filter_singleton by exact [].
      case_decide as Hin; simpl; [|specialize (Htr T); lia].
      assert (length (trailing T admitted) ≤ length (prune t admitted))%nat.
      { apply filter_length_mono. intros ts. lia. }
      rewrite <- (Hw t Hlot) in *. lia.
Qed.

Lemma serve_admissions sessionId times : ∀ mt admitted,
  (serve mt sessionId admitted times).1
  = (admissions admitted (default [] (mt !! sessionId)) times).1
  ∧ default [] ((serve mt sessionId admitted times).2 !! sessionId)
    = (admissions admitted (default [] (mt !! sessionId)) times).2.
Proof.
  induction times as [|now rest IH]; intros mt admitted; simpl; [done|].
  unfold rate_limit.
  destruct (check now (default [] (mt !! sessionId))) as [w' [|r]] eqn:E.
  - specialize (IH (<[sessionId := w']> mt) (admitted ++ [now])).
    by rewrite lookup_insert_eq in IH.
  - specialize (IH (<[sessionId := w']> mt) admitted).
    by rewrite lookup_insert_eq in IH.
Qed.

(** C4.  For checks of one id at non-decreasing times, starting with no
    window for the id: no trailing interval of length [TIME_WINDOW] holds
    more than [MESSAGE_LIMIT] admitted timestamps; and after each check,
    made at [now], the stored window holds only timestamps [ts] with
    [now - TIME_WINDOW < ts <= now] and at most [MESSAGE_LIMIT] of them. *)
Theorem admitted_within_limit (mt : gmap string (list Z)) (sessionId : string)
    (times : list Z) :
  mt !! sessionId = None →
  Sorted Z.le times →
  (∀ T, (length (trailing T (serve mt sessionId [] times).1)
         ≤ MESSAGE_LIMIT)%nat)
  ∧ (∀ pre now rest, times = pre ++ now :: rest →
       let w :=
         default [] ((serve mt sessionId [] (pre ++ [now])).2 !! sessionId) in
       (∀ ts, ts ∈ w → now - TIME_WINDOW < ts ≤ now)
       ∧ (length w ≤ MESSAGE_LIMIT)%nat).
Proof.
  intros Hnone Hs%Sorted_StronglySorted; [|intros ???; lia]. split.
  - rewrite (proj1 (serve_admissions sessionId times mt [])), Hnone. simpl.
    destruct times as [|t times]; [simpl; unfold MESSAGE_LIMIT; lia|].
    apply (admissions_trailing _ _ _ t); [done| |done|].
    + apply StronglySorted_inv in Hs as [_ Hle].
      apply Forall_cons. split; [lia|done].
    + intros T. simpl. unfold MESSAGE_LIMIT. lia.
  - intros pre now rest -> w. subst w.
    rewrite (proj2 (serve_admissions sessionId (pre ++ [now]) mt [])), Hnone.
    simpl. split.
    + intros ts Hts. rewrite admissions_snoc in Hts.
      pose proof (admissions_window_elem [] [] pre) as Hel.
      destruct (admissions [] [] pre) as [a1 w1]. simpl in Hel.
      pose proof (check_window now w1 ts) as Hc.
      assert (ts ∈ (check now w1).1) as Hin
        by (destruct (check now w1) as [w' [|r]]; exact Hts).
      apply Hc in Hin as [[Hin ?]%elem_of_prune| ->]; [|unfold TIME_WINDOW; lia].
      split; [done|].
      apply Hel in Hin as [Hin|Hin]; [by apply elem_of_nil in Hin|].
      apply StronglySorted_app_1_elem_of with (x1 := ts) (x2 := now) in Hs;
        [done|done|left].
    + apply admissions_window_length. simpl. lia.
Qed.

Lemma admitted_within_limit_witness :
  (∀ T, (length (trailing T (serve ∅ "s" [] sample_times).1)
         ≤ MESSAGE_LIMIT)%nat)
  ∧ (∀ pre now rest, sample_times = pre ++ now :: rest →
       let w := default [] ((serve ∅ "s" [] (pre ++ [now])).2 !! "s") in
       (∀ ts, ts ∈ w → now - TIME_WINDOW < ts ≤ now)
       ∧ (length w ≤ MESSAGE_LIMIT)%nat).
Proof.
  apply (admitted_within_limit ∅ "s" sample_times).
  - reflexivity.
  - unfold sample_times. repeat constructor; lia.
Defined.

(** Twelve checks within one second: ten are admitted, and the window
    that starts one window later is free again. *)
Example serve_burst :
  (serve ∅ "s" [] [0; 1; 2; 3; 4; 5; 6; 7; 8; 9; 10; 11; 600000]).1
  = [0; 1; 2; 3; 4; 5; 6; 7; 8; 9; 600000].
Proof. vm_compute. reflexivity. Qed.

(** ** Running handlers *)

Ltac unfold_M :=
  unfold mbind, M_bind, mret, M_ret, bind, try_catch, await, delay, modify,
    get, ret, throw in *.

Lemma run_bind {A B} (w : world) (p : prog A) (f : A → M B) : ∀ past,
  run w past (bind_prog p f)
  = let '(s1, r1, tr1) := run w past p in
    match r1 with
    | Ok a =>
        let '(s2, r2, tr2) := run w (past ++ tr1) (f a s1) in
        (s2, r2, tr1 ++ tr2)
    | Thrown e => (s1, Thrown e, tr1)
    end.
Proof.
  induction p as [s [a|e]|s c k IH]; intros past; simpl.
  - rewrite app_nil_r. by destruct (run w past (f a s)) as [[s2 r2] tr2].
  - done.
  - rewrite IH.
    destruct (run w (past ++ [c]) (k (w past c) s)) as [[s1 [a|e]] tr1];
      [|done].
    rewrite <- app_assoc. simpl.
    by destruct (run w (past ++ c :: tr1) (f a s1)) as [[s2 r2] tr2].
Qed.

Lemma passive_bind {A B} (p : prog A) (f : A → M B) : ∀ s,
  passive s p → (∀ a s', passive s' (f a s')) → passive s (bind_prog p f).
Proof.
  induction p as [s0 [a|e]|s0 c k IH]; intros s Hp Hf; simpl in *.
  - subst. apply Hf.
  - done.
  - destruct Hp as [-> Hk]. split; [done|]. intros r s''. by apply IH.
Qed.

Lemma passive_catch {A} (p : prog A) (h : string → M A) : ∀ s,
  passive s p → (∀ e s', passive s' (h e s')) → passive s (catch_prog p h).
Proof.
  induction p as [s0 [a|e]|s0 c k IH]; intros s Hp Hh; simpl in *.
  - done.
  - subst. apply Hh.
  - destruct Hp as [-> Hk]. split; [done|]. intros r s''. by apply IH.
Qed.

Lemma passive_run {A} (w : world) (p : prog A) : ∀ s past,
  passive s p → (run w past p).1.1 = s.
Proof.
  induction p as [s0 r|s0 c k IH]; intros s past Hp; simpl in *; [done|].
  destruct Hp as [-> Hk].
  specialize (IH (w past c) s s (past ++ [c]) (Hk _ _)).
  by destruct (run w (past ++ [c]) (k (w past c) s)) as [[s1 r1] tr1].
Qed.

(** ** Bulk send: one iteration *)

(** One iteration of the loop, executed: every path ends in exactly one
    [report.push] and one counter increment. *)
Lemma process_run (w : world) past s sk msg retry n t :
  let q := OnWhatsApp sk (to_jid n) in
  let m := SendMessage sk (to_jid n) (Text msg) in
  run w past (process sk msg retry n t s)
  = match w past q with
    | Thrown e => (s, Ok (push_failed n e t), [q; Delay 500])
    | Ok None => (s, Ok (push_failed n not_iterable t), [q; Delay 500])
    | Ok (Some l) =>
        if exists_flag (head l) then
          match w (past ++ [q]) m with
          | Ok _ => (s, Ok (push_sent n StSent t), [q; m; Delay 500])
          | Thrown e1 =>
              if retry then
                match w (past ++ [q; m; Delay 2000]) m with
                | Ok _ =>
                    (s, Ok (push_sent n StSentRetry t),
                     [q; m; Delay 2000; m; Delay 500])
                | Thrown e2 =>
                    (s, Ok (push_failed n ("Retry failed: " +:+ e2) t),
                     [q; m; Delay 2000; m; Delay 500])
                end
              else (s, Ok (push_failed n e1 t), [q; m; Delay 500])
          end
        else (s, Ok (push_skipped n t), [q])
    end.
Proof.
  intros q m. unfold process, attempt. unfold_M. simpl. fold q m.
  destruct (w past q) as [[l|]|e]; simpl; [|done|done].
  destruct (exists_flag (head l)); simpl; [|done].
  destruct (w (past ++ [q]) m) as [ack|e1]; simpl; [done|].
  destruct retry; simpl; [|done].
  rewrite <- !app_assoc. simpl.
  by destruct (w (past ++ [q; m; Delay 2000]) m) as [ack|e2].
Qed.

Lemma count_status_snoc P l e :
  count_status P (l ++ [e])
  = (count_status P l + if P (e_status e) then 1 else 0)%nat.
Proof.
  unfold count_status. rewrite filter_app, length_app, filter_singleton by exact [].
  destruct (P (e_status e)); simpl; done.
Qed.

Lemma count_status_partition l :
  (count_status is_sent l + count_status is_failed l
   + count_status is_skipped l)%nat = length l.
Proof.
  induction l as [|e l IH] using rev_ind; [done|].
  rewrite !count_status_snoc, length_app. simpl.
  destruct (e_status e); simpl; lia.
Qed.

Lemma push_sent_ok n st t :
  is_sent st = true → tally_ok t → tally_ok (push_sent n st t).
Proof.
  intros Hst (H1 & H2 & H3). unfold tally_ok, push_sent. simpl.
  rewrite !count_status_snoc. simpl. rewrite Hst.
  destruct st; simpl in *; try done; lia.
Qed.

Lemma push_failed_ok n reason t : tally_ok t → tally_ok (push_failed n reason t).
Proof.
  intros (H1 & H2 & H3). unfold tally_ok, push_failed. simpl.
  rewrite !count_status_snoc. simpl. lia.
Qed.

Lemma push_skipped_ok n t : tally_ok t → tally_ok (push_skipped n t).
Proof.
  intros (H1 & H2 & H3). unfold tally_ok, push_skipped. simpl.
  rewrite !count_status_snoc. simpl. lia.
Qed.

(** One iteration never throws, leaves the shared state alone and pushes
    one entry, for the recipient it was given. *)
Lemma process_pushes_one (w : world) past s sk msg retry n t :
  ∃ t' e tr,
    run w past (process sk msg retry n t s) = (s, Ok t', tr)
    ∧ report t' = report t ++ [e]
    ∧ e_number e = n
    ∧ (tally_ok t → tally_ok t').
Proof.
  rewrite process_run.
  destruct (w past _) as [[l|]|e].
  - destruct (exists_flag (head l)).
    + destruct (w (past ++ _) _) as [ack|e1].
      * eexists _, _, _. split; [done|]. split; [done|]. split; [done|].
        by apply push_sent_ok.
      * destruct retry.
        -- destruct (w (past ++ _) _) as [ack|e2];
             eexists _, _, _; (split; [done|]); (split; [done|]);
             (split; [done|]).
           ++ by apply push_sent_ok.
           ++ apply push_failed_ok.
        -- eexists _, _, _. split; [done|]. split; [done|]. split; [done|].
           apply push_failed_ok.
    + eexists _, _, _. split; [done|]. split; [done|]. split; [done|].
      apply push_skipped_ok.
  - eexists _, _, _. split; [done|]. split; [done|]. split; [done|].
    apply push_failed_ok.
  - eexists _, _, _. split; [done|]. split; [done|]. split; [done|].
    apply push_failed_ok.
Qed.

(** ** Bulk send: the loop and the report *)

Lemma loop_run (w : world) past s sk msg retry n rest t :
  run w past (loop sk msg retry (n :: rest) t s)
  = let '(s1, r1, tr1) := run w past (process sk msg retry n t s) in
    match r1 with
    | Ok t' =>
        let '(s2, r2, tr2) :=
          run w (past ++ tr1) (loop sk msg retry rest t' s1) in
        (s2, r2, tr1 ++ tr2)
    | Thrown e => (s1, Thrown e, tr1)
    end.
Proof.
  change (loop sk msg retry (n :: rest) t s)
    with (bind_prog (process sk msg retry n t s)
            (λ t', loop sk msg retry rest t')).
  apply run_bind.
Qed.

Lemma loop_pushes_all (w : world) s sk msg retry ns : ∀ past t,
  ∃ t' tr,
    run w past (loop sk msg retry ns t s) = (s, Ok t', tr)
    ∧ e_number <$> report t' = (e_number <$> report t) ++ ns
    ∧ (tally_ok t → tally_ok t').
Proof.
  induction ns as [|n rest IH]; intros past t.
  - exists t, []. simpl. by rewrite app_nil_r.
  - rewrite loop_run.
    destruct (process_pushes_one w past s sk msg retry n t)
      as (t1 & e & tr1 & -> & Hrep & Hn & Hok1).
    destruct (IH (past ++ tr1) t1) as (t2 & tr2 & -> & Hrep2 & Hok2).
    exists t2, (tr1 ++ tr2). split; [done|]. split; [|tauto].
    rewrite Hrep2, Hrep, fmap_app, <- app_assoc. simpl. by rewrite Hn.
Qed.

Lemma send_bulk_valid s sessionId req ns x :
  numbers req = Some ns → ns ≠ [] → bulk_message req ≠ "" →
  connected s sessionId = Some x →
  send_bulk sessionId req s
  = bind_prog
      (loop (sock x) (bulk_message req) (retryFailed req) ns
         (mkTally [] 0 0 0) s)
      (λ t,
         mret (BulkReport
                 (mkSummary (length ns)
                    (successCount t + failCount t + skippedCount t)
                    (successCount t) (failCount t) (skippedCount t))
                 (report t))).
Proof.
  intros Hns Hne Hmsg Hx. unfold send_bulk. rewrite Hns.
  destruct ns as [|n rest]; [done|].
  destruct (String.eqb_spec (bulk_message req) "") as [|_]; [done|].
  unfold mbind, M_bind, bind, get. cbv beta iota.
  change (bind_prog (Done s (Ok s)) ?f) with (f s s). cbv beta. by rewrite Hx.
Qed.

(** The example of the specification: of [A, B, C] only [B] is not
    registered. *)
Example bulk_ABC_run :
  run world_B_missing [] (send_bulk "s" bulk_ABC st_connected)
  = (st_connected,
     Ok (BulkReport (mkSummary 3 3 2 0 1)
           [mkEntry "A" StSent None;
            mkEntry "B" StSkipped (Some "Not registered on WhatsApp");
            mkEntry "C" StSent None]),
     [OnWhatsApp 3 "A@s.whatsapp.net";
      SendMessage 3 "A@s.whatsapp.net" (Text "hi"); Delay 500;
      OnWhatsApp 3 "B@s.whatsapp.net";
      OnWhatsApp 3 "C@s.whatsapp.net";
      SendMessage 3 "C@s.whatsapp.net" (Text "hi"); Delay 500]).
Proof. vm_compute. reflexivity. Qed.

(** ** Bulk send: pacing, retry and failed queries *)

(** C2, as amended.  One iteration of the bulk loop pushes one entry.  When
    that entry is not [skipped] (it is sent, sent on retry or failed), the
    last call of the iteration is the pacing delay of 500 ms; when the
    recipient is skipped as not registered, the [continue] of line 231
    leaves the iteration right after the existence query, without any
    delay. *)
Theorem pacing_unless_skipped (w : world) past s sk msg retry n t :
  ∃ t' e tr,
    run w past (process sk msg retry n t s) = (s, Ok t', tr)
    ∧ report t' = report t ++ [e]
    ∧ (e_status e ≠ StSkipped → last tr = Some (Delay 500))
    ∧ (e_status e = StSkipped →
         tr = [OnWhatsApp sk (to_jid n)] ∧ filter (λ c, is_delay c) tr = []).
Proof.
  rewrite process_run.
  destruct (w past _) as [[l|]|e].
  - destruct (exists_flag (head l)).
    + destruct (w (past ++ _) _) as [ack|e1].
      * eexists _, _, _. split; [done|]. split; [done|]. by split.
      * destruct retry.
        -- destruct (w (past ++ _) _) as [ack|e2];
             eexists _, _, _; (split; [done|]); (split; [done|]); by split.
        -- eexists _, _, _. split; [done|]. split; [done|]. by split.
    + eexists _, _, _. split; [done|]. split; [done|]. by split.
  - eexists _, _, _. split; [done|]. split; [done|]. by split.
  - eexists _, _, _. split; [done|]. split; [done|]. by split.
Qed.

(** C2, as stated, fails: after the skipped recipient ["B"] the job goes on
    to ["C"] at once, so not every iteration ends with the pacing delay. *)
Lemma pacing_after_skip_counterexample :
  (run world_B_missing [] (process 3 "hi" false "B" no_tally st_connected)).2
  = [OnWhatsApp 3 "B@s.whatsapp.net"]
  ∧ (run world_B_missing [] (send_bulk "s" bulk_ABC st_connected)).2
    = [OnWhatsApp 3 "A@s.whatsapp.net";
       SendMessage 3 "A@s.whatsapp.net" (Text "hi"); Delay 500;
       OnWhatsApp 3 "B@s.whatsapp.net";
       OnWhatsApp 3 "C@s.whatsapp.net";
       SendMessage 3 "C@s.whatsapp.net" (Text "hi"); Delay 500]
  ∧ ¬ (∀ (w : world) past s sk msg retry n t,
         last (run w past (process sk msg retry n t s)).2 = Some (Delay 500)).
Proof.
  split; [by vm_compute|]. split; [by vm_compute|].
  intros H.
  specialize (H world_B_missing [] st_connected 3%nat "hi" false "B" no_tally).
  vm_compute in H. discriminate H.
Qed.

(** C6.  When the recipient exists and the first send fails: without
    [retryFailed] the recipient is recorded as failed with the message of
    that error, after one send; with [retryFailed] the handler waits 2000 ms
    and sends once more, recording ['sent (retry)'] when that send succeeds
    and failed with ["Retry failed: "] and the message of the retry's error
    when it fails.  Each time one entry is pushed and one counter goes up,
    the pacing delay follows and the loop goes on with the recipients that
    remain.  In every case, and for every recipient, one iteration makes at
    most two sends. *)
Theorem bulk_retry_policy :
  (∀ (w : world) past s sk msg retry n rest t l e1,
     let q := OnWhatsApp sk (to_jid n) in
     let m := SendMessage sk (to_jid n) (Text msg) in
     let failed_with reason :=
       mkTally (report t ++ [mkEntry n StFailed (Some reason)])
         (successCount t) (S (failCount t)) (skippedCount t) in
     let sent_on_retry :=
       mkTally (report t ++ [mkEntry n StSentRetry None])
         (S (successCount t)) (failCount t) (skippedCount t) in
     let iteration t' tr :=
       run w past (process sk msg retry n t s) = (s, Ok t', tr)
       ∧ run w past (loop sk msg retry (n :: rest) t s)
         = (let '(s2, r2, tr2) :=
              run w (past ++ tr) (loop sk msg retry rest t' s) in
            (s2, r2, tr ++ tr2)) in
     w past q = Ok (Some l) → exists_flag (head l) = true →
     w (past ++ [q]) m = Thrown e1 →
     (retry = false → iteration (failed_with e1) [q; m; Delay 500])
     ∧ (retry = true →
          (∀ ack, w (past ++ [q; m; Delay 2000]) m = Ok ack →
             iteration sent_on_retry [q; m; Delay 2000; m; Delay 500])
          ∧ (∀ e2, w (past ++ [q; m; Delay 2000]) m = Thrown e2 →
               iteration (failed_with ("Retry failed: " +:+ e2))
                 [q; m; Delay 2000; m; Delay 500])))
  ∧ (∀ (w : world) past s sk msg retry n t,
       (send_calls (run w past (process sk msg retry n t s)).2 ≤ 2)%nat).
Proof.
  split.
  - intros w past s sk msg retry n rest t l e1 q m failed_with sent_on_retry
      iteration Hq Hl Hm.
    assert (∀ t' tr, run w past (process sk msg retry n t s) = (s, Ok t', tr)
                     → iteration t' tr) as Hit.
    { intros t' tr Hp. split; [done|]. by rewrite loop_run, Hp. }
    split; [intros ->|intros ->; split; [intros ack Hr|intros e2 Hr]];
      apply Hit; rewrite process_run; fold q m; rewrite Hq, Hl, Hm, ?Hr; done.
  - intros w past s sk msg retry n t. rewrite process_run.
    unfold send_calls.
    destruct (w past _) as [[l|]|e]; [|simpl; lia|simpl; lia].
    destruct (exists_flag (head l)); [|simpl; lia].
    destruct (w (past ++ _) _) as [ack|e1]; [simpl; lia|].
    destruct retry; [|simpl; lia].
    destruct (w (past ++ _) _) as [ack|e2]; simpl; lia.
Qed.

(** One run of C6: the first send fails and the retry succeeds, and the
    job goes on to the next recipient. *)
Lemma bulk_retry_policy_witness :
  run world_flaky [] (process 3 "hi" true "A" no_tally st_connected)
  = (st_connected, Ok (mkTally [mkEntry "A" StSentRetry None] 1 0 0),
     [OnWhatsApp 3 "A@s.whatsapp.net";
      SendMessage 3 "A@s.whatsapp.net" (Text "hi"); Delay 2000;
      SendMessage 3 "A@s.whatsapp.net" (Text "hi"); Delay 500])
  ∧ run world_flaky [] (loop 3 "hi" true ["A"; "C"] no_tally st_connected)
    = (st_connected,
       Ok (mkTally [mkEntry "A" StSentRetry None; mkEntry "C" StSent None]
             2 0 0),
       [OnWhatsApp 3 "A@s.whatsapp.net";
        SendMessage 3 "A@s.whatsapp.net" (Text "hi"); Delay 2000;
        SendMessage 3 "A@s.whatsapp.net" (Text "hi"); Delay 500;
        OnWhatsApp 3 "C@s.whatsapp.net";
        SendMessage 3 "C@s.whatsapp.net" (Text "hi"); Delay 500]).
Proof.
  exact (proj1 (proj2 (proj1 bulk_retry_policy world_flaky [] st_connected
           3%nat "hi" true "A" ["C"] no_tally [true] "timed out"
           eq_refl eq_refl eq_refl) eq_refl) 7%nat eq_refl).
Defined.

Example bulk_no_retry_run :
  run world_no_send [] (process 3 "hi" false "A" no_tally st_connected)
  = (st_connected,
     Ok (mkTally [mkEntry "A" StFailed (Some "timed out")] 0 1 0),
     [OnWhatsApp 3 "A@s.whatsapp.net";
      SendMessage 3 "A@s.whatsapp.net" (Text "hi"); Delay 500]).
Proof. vm_compute. reflexivity. Qed.

Example bulk_retry_fails_run :
  run world_no_send [] (process 3 "hi" true "A" no_tally st_connected)
  = (st_connected,
     Ok (mkTally [mkEntry "A" StFailed (Some "Retry failed: timed out")] 0 1 0),
     [OnWhatsApp 3 "A@s.whatsapp.net";
      SendMessage 3 "A@s.whatsapp.net" (Text "hi"); Delay 2000;
      SendMessage 3 "A@s.whatsapp.net" (Text "hi"); Delay 500]).
Proof. vm_compute. reflexivity. Qed.

(** C9.  When the existence query of a recipient throws, the iteration
    records the recipient as failed with the message of the error (not as
    skipped), increments [failCount] alone, paces, and the loop goes on with
    the recipients that remain. *)
Theorem query_error_is_failed (w : world) past s sk msg retry n rest t e :
  let q := OnWhatsApp sk (to_jid n) in
  let t' :=
    mkTally (report t ++ [mkEntry n StFailed (Some e)])
      (successCount t) (S (failCount t)) (skippedCount t) in
  w past q = Thrown e →
  run w past (process sk msg retry n t s) = (s, Ok t', [q; Delay 500])
  ∧ run w past (loop sk msg retry (n :: rest) t s)
    = let '(s2, r2, tr2) :=
        run w (past ++ [q; Delay 500]) (loop sk msg retry rest t' s) in
      (s2, r2, [q; Delay 500] ++ tr2).
Proof.
  intros q t' Hq.
  assert (run w past (process sk msg retry n t s) = (s, Ok t', [q; Delay 500]))
    as Hp by (rewrite process_run; fold q; by rewrite Hq).
  split; [done|]. by rewrite loop_run, Hp.
Qed.

Lemma query_error_is_failed_witness :
  run world_query_fails [] (process 3 "hi" true "A" no_tally st_connected)
  = (st_connected,
     Ok (mkTally [mkEntry "A" StFailed (Some "Connection Closed")] 0 1 0),
     [OnWhatsApp 3 "A@s.whatsapp.net"; Delay 500])
  ∧ run world_query_fails [] (loop 3 "hi" true ["A"; "B"] no_tally st_connected)
    = (st_connected,
       Ok (mkTally [mkEntry "A" StFailed (Some "Connection Closed");
                    mkEntry "B" StFailed (Some "Connection Closed")] 0 2 0),
       [OnWhatsApp 3 "A@s.whatsapp.net"; Delay 500;
        OnWhatsApp 3 "B@s.whatsapp.net"; Delay 500]).
Proof.
  exact (query_error_is_failed world_query_fails [] st_connected 3%nat "hi"
           true "A" ["B"] no_tally "Connection Closed" eq_refl).
Defined.

(** ** Bulk send: recipients that are not strings *)

Lemma has_includes_jid r :
  has_includes r = true → ∃ jid, jid_of r = Ok jid.
Proof. destruct r; [by eexists|by eexists|done]. Qed.

Lemma tally_ok_eq t : tally_ok t → t = tally_of (report t).
Proof. destruct t. unfold tally_ok, tally_of. simpl. by intros (-> & -> & ->). Qed.

(** One iteration, once the address is computed, does what the table of
    outcomes says. *)
Lemma process_with_outcome (w : world) past s sk msg retry jid n t :
  let o := outcome w past sk msg retry jid n in
  ∃ t',
    run w past (process_with sk msg retry jid n t s) = (s, Ok t', o.2)
    ∧ report t' = report t ++ [o.1]
    ∧ (tally_ok t → tally_ok t').
Proof.
  unfold outcome, process_with, attempt. unfold_M. simpl.
  set (q := OnWhatsApp sk jid). set (m := SendMessage sk jid (Text msg)).
  destruct (w past q) as [[l|]|e]; simpl.
  - destruct (head l) as [[]|]; simpl.
    + destruct (w (past ++ [q]) m) as [ack|e1]; simpl.
      * eexists. split; [done|]. split; [done|]. by apply push_sent_ok.
      * destruct retry; simpl.
        -- rewrite <- !app_assoc. simpl.
           destruct (w (past ++ [q; m; Delay 2000]) m) as [ack|e2]; simpl;
             eexists; (split; [done|]); (split; [done|]).
           ++ by apply push_sent_ok.
           ++ apply push_failed_ok.
        -- eexists. split; [done|]. split; [done|]. apply push_failed_ok.
    + eexists. split; [done|]. split; [done|]. apply push_skipped_ok.
    + eexists. split; [done|]. split; [done|]. apply push_skipped_ok.
  - eexists. split; [done|]. split; [done|]. apply push_failed_ok.
  - eexists. split; [done|]. split; [done|]. apply push_failed_ok.
Qed.

Lemma loop_any_run (w : world) past s sk msg retry r rest t :
  run w past (loop_any sk msg retry (r :: rest) t s)
  = let '(s1, r1, tr1) := run w past (process_any sk msg retry r t s) in
    match r1 with
    | Ok t' =>
        let '(s2, r2, tr2) :=
          run w (past ++ tr1) (loop_any sk msg retry rest t' s1) in
        (s2, r2, tr1 ++ tr2)
    | Thrown e => (s1, Thrown e, tr1)
    end.
Proof.
  change (loop_any sk msg retry (r :: rest) t s)
    with (bind_prog (process_any sk msg retry r t s)
            (λ t', loop_any sk msg retry rest t')).
  apply run_bind.
Qed.

(** The loop over recipients that all have [includes]: the report is the
    entries of the table, the calls are its calls, and nothing is thrown. *)
Lemma loop_any_reaches_all (w : world) s sk msg retry rs : ∀ past t,
  Forall (λ r, has_includes r = true) rs → tally_ok t →
  let os := outcomes w past sk msg retry rs in
  run w past (loop_any sk msg retry rs t s)
  = (s, Ok (tally_of (report t ++ os.*1)), concat os.*2)
  ∧ length os = length rs.
Proof.
  induction rs as [|r rest IH]; intros past t Hall Hok.
  - simpl. rewrite app_nil_r. by rewrite <- tally_ok_eq.
  - apply Forall_cons in Hall as [Hr Hrest].
    destruct (has_includes_jid r Hr) as [jid Hjid].
    rewrite loop_any_run. unfold process_any. cbn [outcomes].
    rewrite Hjid. cbv zeta.
    destruct (process_with_outcome w past s sk msg retry jid (label r) t)
      as (t1 & -> & Hrep & Hok1).
    set (o := outcome w past sk msg retry jid (label r)) in *.
    destruct (IH (past ++ o.2) t1 Hrest (Hok1 Hok)) as [-> Hlen].
    rewrite Hrep, <- app_assoc. simpl. by rewrite Hlen.
Qed.

(** The loop up to a recipient without [includes]: the recipients before
    it are handled, then line 221 throws and the loop is left. *)
Lemma loop_any_aborts (w : world) s sk msg retry e rest before : ∀ past t,
  Forall (λ r, has_includes r = true) before →
  run w past (loop_any sk msg retry (before ++ RNoIncludes e :: rest) t s)
  = (s, Thrown e, concat (outcomes w past sk msg retry before).*2)
  ∧ outcomes w past sk msg retry (before ++ RNoIncludes e :: rest)
    = outcomes w past sk msg retry before.
Proof.
  induction before as [|r before IH]; intros past t Hall.
  - change ([] ++ RNoIncludes e :: rest) with (RNoIncludes e :: rest).
    by rewrite loop_any_run.
  - apply Forall_cons in Hall as [Hr Hrest].
    destruct (has_includes_jid r Hr) as [jid Hjid].
    change ((r :: before) ++ RNoIncludes e :: rest)
      with (r :: (before ++ RNoIncludes e :: rest)).
    rewrite loop_any_run. unfold process_any. cbn [outcomes].
    rewrite Hjid. cbv zeta.
    destruct (process_with_outcome w past s sk msg retry jid (label r) t)
      as (t1 & -> & _).
    set (o := outcome w past sk msg retry jid (label r)) in *.
    destruct (IH (past ++ o.2) t1 Hrest) as [-> ->]. done.
Qed.

Lemma post_send_bulk_valid s sessionId b rs x :
  b_numbers b = Some rs → rs ≠ [] → b_bulk_message b ≠ "" →
  connected s sessionId = Some x →
  post_send_bulk sessionId b s
  = bind_prog
      (loop_any (sock x) (b_bulk_message b) (b_retryFailed b) rs
         (mkTally [] 0 0 0) s)
      (λ t,
         mret (BulkReport
                 (mkSummary (length rs)
                    (successCount t + failCount t + skippedCount t)
                    (successCount t) (failCount t) (skippedCount t))
                 (report t))).
Proof.
  intros Hrs Hne Hmsg Hx. unfold post_send_bulk. rewrite Hrs.
  destruct rs as [|r rest]; [done|].
  destruct (String.eqb_spec (b_bulk_message b) "") as [|_]; [done|].
  unfold mbind, M_bind, bind, get. cbv beta iota.
  change (bind_prog (Done s (Ok s)) ?f) with (f s s). cbv beta. by rewrite Hx.
Qed.

(** C7.  The claim fails on a body that the handler accepts: when an
    element of [numbers] has no [includes] (a JSON number, say), the
    recipients before it are handled, whatever is sent to them is sent, and
    then line 221 throws outside the [try] of the iteration.  The handler
    is left by that error: no response is built, so there is no report, no
    entry for any recipient and no summary. *)
Theorem bulk_aborts_without_report (w : world) past s sessionId b x
    before e rest :
  b_numbers b = Some (before ++ RNoIncludes e :: rest) →
  b_bulk_message b ≠ "" →
  connected s sessionId = Some x →
  Forall (λ r, has_includes r = true) before →
  run w past (post_send_bulk sessionId b s)
  = (s, Thrown e,
     concat (outcomes w past (sock x) (b_bulk_message b) (b_retryFailed b)
               before).*2).
Proof.
  intros Hrs Hmsg Hx Hall.
  rewrite (post_send_bulk_valid s sessionId b _ x Hrs) by
    (by destruct before || done).
  rewrite run_bind.
  destruct (loop_any_aborts w s (sock x) (b_bulk_message b) (b_retryFailed b)
              e rest before past (mkTally [] 0 0 0) Hall) as [-> _].
  done.
Qed.

(** [{"numbers": ["A", 123, "C"], "message": "hi"}] on the connected
    session ["s"]: ["A"] gets the message, then the handler is left with
    the [TypeError]. *)
Lemma bulk_aborts_without_report_witness :
  run world_B_missing [] (post_send_bulk "s" bulk_A_123_C st_connected)
  = (st_connected, Thrown "number.includes is not a function",
     concat (outcomes world_B_missing [] 3 "hi" false [RString "A"]).*2).
Proof.
  apply (bulk_aborts_without_report world_B_missing [] st_connected "s"
           bulk_A_123_C (mkSession 3 true "") [RString "A"]
           "number.includes is not a function" [RString "C"]).
  - reflexivity.
  - discriminate.
  - reflexivity.
  - by repeat constructor.
Defined.

Example bulk_A_123_C_run :
  run world_B_missing [] (post_send_bulk "s" bulk_A_123_C st_connected)
  = (st_connected, Thrown "number.includes is not a function",
     [OnWhatsApp 3 "A@s.whatsapp.net";
      SendMessage 3 "A@s.whatsapp.net" (Text "hi"); Delay 500])
  ∧ run world_B_missing [] (post_send_bulk "s" bulk_123 st_connected)
    = (st_connected, Thrown "number.includes is not a function", []).
Proof. vm_compute. done. Qed.

(** ** Single send *)

Example to_jid_bare : to_jid "923001234567" = "923001234567@s.whatsapp.net".
Proof. reflexivity. Qed.

Example to_jid_full :
  to_jid "923001234567@s.whatsapp.net" = "923001234567@s.whatsapp.net".
Proof. reflexivity. Qed.

(** The eleventh send of a window is rejected before any call is made. *)
Example send_rate_limited_run :
  run world_B_missing [] (send "s" 1500 send_text_A st_at_limit)
  = (st_at_limit, Ok (RateLimitExceeded 599), []).
Proof. vm_compute. reflexivity. Qed.

Lemma send_admitted s sessionId now req x :
  connected s sessionId = Some x →
  (length (prune now (default [] (messageTracker s !! sessionId)))
   < MESSAGE_LIMIT)%nat →
  send sessionId now req s
  = send_after_admission (sock x) req
      (set_messageTracker
         (λ mt, <[sessionId :=
                   prune now (default [] (mt !! sessionId)) ++ [now]]> mt) s).
Proof.
  intros Hx Hlt. unfold send. unfold mbind, M_bind, bind, get.
  change (bind_prog (Done s (Ok s)) ?f) with (f s s). cbv beta. rewrite Hx.
  unfold rate_limit. rewrite (check_admitted _ _ Hlt). done.
Qed.

Lemma send_after_admission_passive sk req s :
  passive s (send_after_admission sk req s).
Proof.
  unfold send_after_admission, try_catch.
  apply passive_catch; [|done].
  unfold mbind, M_bind, bind.
  apply passive_bind; [by split|].
  intros result s1. destruct (negb (first_exists result)); [done|].
  apply passive_bind; [|done].
  destruct (file req) as [[buffer mimetype]|]; [by split|].
  destruct (truthy (image req)); [|by split].
  apply passive_bind; [by split|]. intros imageRes s2. by split.
Qed.

(** The outcomes of the part after the push: 404, 500 or 200, and a send is
    attempted only for a recipient reported as existing. *)
Lemma send_after_admission_run (w : world) past sk req s :
  let q := OnWhatsApp sk (to_jid (number req)) in
  ∃ r tr,
    run w past (send_after_admission sk req s) = (s, Ok r, q :: tr)
    ∧ (r = NumberNotRegistered ∨ (∃ e, r = ServerError e)
       ∨ (∃ d, r = MessageSent d))
    ∧ (∀ result, w past q = Ok result → first_exists result = false →
         r = NumberNotRegistered ∧ tr = []).
Proof.
  intros q. unfold send_after_admission. unfold_M. simpl. fold q.
  destruct (w past q) as [result|e]; simpl.
  - destruct (first_exists result) eqn:Hex; simpl.
    + destruct (file req) as [[buffer mimetype]|]; simpl.
      * destruct (w (past ++ [q]) _) as [d|e]; simpl;
          eexists _, _; (split; [done|]); split; eauto; intros ? [= <-] ?; congruence.
      * destruct (truthy (image req)); simpl.
        -- destruct (w (past ++ [q]) _) as [bytes|e]; simpl.
           ++ destruct (w _ _) as [d|e]; simpl;
                eexists _, _; (split; [done|]); split; eauto;
                intros ? [= <-] ?; congruence.
           ++ eexists _, _. split; [done|]. split; eauto. intros ? [= <-] ?; congruence.
        -- destruct (w (past ++ [q]) _) as [d|e]; simpl;
             eexists _, _; (split; [done|]); split; eauto; intros ? [= <-] ?; congruence.
    + eexists _, _. split; [done|]. split; eauto.
  - eexists _, _. split; [done|]. split; eauto. by intros ? [=].
Qed.

(** C5.  On a connected session whose check admits the send, the handler
    reaches the existence query with [now] already pushed on the id's
    window; when the query reports that the recipient does not exist, the
    handler answers 404, the query is the only call it made (nothing was
    sent), and the window still ends with [now]. *)
Theorem not_found_after_admission (w : world) past s sessionId now req x :
  let pruned := prune now (default [] (messageTracker s !! sessionId)) in
  let s1 :=
    mkState (sessions s)
      (<[sessionId := pruned ++ [now]]> (messageTracker s)) (files s) in
  let q := OnWhatsApp (sock x) (to_jid (number req)) in
  connected s sessionId = Some x →
  (length pruned < MESSAGE_LIMIT)%nat →
  (∃ k, send sessionId now req s = Await s1 q k)
  ∧ messageTracker s1 !! sessionId = Some (pruned ++ [now])
  ∧ (∀ result, w past q = Ok result → first_exists result = false →
       run w past (send sessionId now req s)
       = (s1, Ok NumberNotRegistered, [q])
       ∧ http_status NumberNotRegistered = 404
       ∧ send_calls [q] = 0%nat).
Proof.
  intros pruned s1 q Hx Hlt. rewrite (send_admitted _ _ _ _ _ Hx Hlt).
  change (set_messageTracker _ s) with s1.
  split; [|split].
  - unfold send_after_admission. unfold_M. simpl. by eexists.
  - simpl. apply lookup_insert_eq.
  - intros result Hq Hex.
    destruct (send_after_admission_run w past (sock x) req s1)
      as (r & tr & Hrun & _ & Hnf).
    destruct (Hnf result Hq Hex) as [-> ->]. by rewrite Hrun.
Qed.

Lemma not_found_after_admission_witness :
  (∃ k, send "s" 1000 send_text_B st_connected
        = Await (mkState (sessions st_connected) (<["s" := [1000]]> ∅) ∅)
            (OnWhatsApp 3 "B@s.whatsapp.net") k)
  ∧ messageTracker (mkState (sessions st_connected) (<["s" := [1000]]> ∅) ∅)
      !! "s" = Some [1000]
  ∧ (∀ result,
       world_B_missing [] (OnWhatsApp 3 "B@s.whatsapp.net") = Ok result →
       first_exists result = false →
       run world_B_missing [] (send "s" 1000 send_text_B st_connected)
       = (mkState (sessions st_connected) (<["s" := [1000]]> ∅) ∅,
          Ok NumberNotRegistered, [OnWhatsApp 3 "B@s.whatsapp.net"])
       ∧ http_status NumberNotRegistered = 404
       ∧ send_calls [OnWhatsApp 3 "B@s.whatsapp.net"] = 0%nat).
Proof.
  apply (not_found_after_admission world_B_missing [] st_connected "s" 1000
           send_text_B (mkSession 3 true "")).
  - vm_compute. reflexivity.
  - vm_compute. lia.
Defined.

Example send_not_registered_run :
  run world_B_missing [] (send "s" 1000 send_text_B st_connected)
  = (mkState (sessions st_connected) (<["s" := [1000]]> ∅) ∅,
     Ok NumberNotRegistered, [OnWhatsApp 3 "B@s.whatsapp.net"]).
Proof. vm_compute. reflexivity. Qed.

(** C10.  On a connected session whose check admits the send, whatever the
    collaborators answer the handler ends with a 404, a 500 or a 200, and in
    each case the id's window is the pruned window followed by [now]: the
    part of the handler that follows the push writes nothing to the shared
    state, whatever state it is resumed with. *)
Theorem admitted_timestamp_stays (w : world) past s sessionId now req x :
  let pruned := prune now (default [] (messageTracker s !! sessionId)) in
  let out := run w past (send sessionId now req s) in
  connected s sessionId = Some x →
  (length pruned < MESSAGE_LIMIT)%nat →
  messageTracker out.1.1 !! sessionId = Some (pruned ++ [now])
  ∧ now ∈ pruned ++ [now]
  ∧ (out.1.2 = Ok NumberNotRegistered
     ∨ (∃ e, out.1.2 = Ok (ServerError e))
     ∨ (∃ d, out.1.2 = Ok (MessageSent d)))
  ∧ (∀ s', passive s' (send_after_admission (sock x) req s')).
Proof.
  intros pruned out Hx Hlt. subst out.
  rewrite (send_admitted _ _ _ _ _ Hx Hlt).
  set (s1 := set_messageTracker _ s).
  destruct (send_after_admission_run w past (sock x) req s1)
    as (r & tr & -> & Hr & _).
  split; [|split; [|split]].
  - simpl. apply lookup_insert_eq.
  - apply elem_of_app. right. left.
  - simpl. destruct Hr as [->|[[e ->]|[d ->]]]; eauto.
  - intros s'. apply send_after_admission_passive.
Qed.

Lemma admitted_timestamp_stays_witness :
  messageTracker
    (run world_no_send [] (send "s" 1000 send_text_A st_connected)).1.1 !! "s"
  = Some ([] ++ [1000])
  ∧ 1000 ∈ [] ++ [1000]
  ∧ ((run world_no_send [] (send "s" 1000 send_text_A st_connected)).1.2
     = Ok NumberNotRegistered
     ∨ (∃ e, (run world_no_send [] (send "s" 1000 send_text_A st_connected)).1.2
             = Ok (ServerError e))
     ∨ (∃ d, (run world_no_send [] (send "s" 1000 send_text_A st_connected)).1.2
             = Ok (MessageSent d)))
  ∧ (∀ s', passive s' (send_after_admission 3 send_text_A s')).
Proof.
  apply (admitted_timestamp_stays world_no_send [] st_connected "s" 1000
           send_text_A (mkSession 3 true "")).
  - vm_compute. reflexivity.
  - vm_compute. lia.
Defined.

Example send_fails_run :
  run world_no_send [] (send "s" 1000 send_text_A st_connected)
  = (mkState (sessions st_connected) (<["s" := [1000]]> ∅) ∅,
     Ok (ServerError "timed out"),
     [OnWhatsApp 3 "A@s.whatsapp.net";
      SendMessage 3 "A@s.whatsapp.net" (Text "hi")]).
Proof. vm_compute. reflexivity. Qed.

(** ** Session lifecycle *)

Example logged_out_run :
  run world_B_missing []
    (connection_update code_loggedOut "s" (close_with code_loggedOut) st_paired)
  = (mkState ∅ ∅ {["auth"; "qr_codes"; "auth/t"]}, Ok tt, []).
Proof. vm_compute. reflexivity. Qed.

Example connection_lost_run :
  run world_B_missing []
    (connection_update code_loggedOut "s" (close_with code_connectionLost)
       st_paired)
  = (mkState (<["s" := mkSession 4 false ""]> ∅) ∅
       {["auth"; "auth/s"; "auth/s/creds.json"; "qr_codes"; "auth/t"]},
     Ok tt,
     [UseMultiFileAuthState "auth/s"; FetchLatestBaileysVersion; MakeWASocket]).
Proof. vm_compute. reflexivity. Qed.



(** * Further properties *)

(** ** The rate limiter: isolation, waiting, tightness *)

Lemma rate_limit_lookup mt sessionId now :
  (rate_limit mt sessionId now).1 !! sessionId
  = Some (check now (default [] (mt !! sessionId))).1.
Proof.
  unfold rate_limit.
  destruct (check now (default [] (mt !! sessionId))) as [w a]. simpl.
  apply lookup_insert_eq.
Qed.

Lemma rate_limit_lookup_ne mt sessionId now other :
  sessionId ≠ other → (rate_limit mt sessionId now).1 !! other = mt !! other.
Proof.
  intros Hne. unfold rate_limit.
  destruct (check now (default [] (mt !! sessionId))) as [w a]. simpl.
  by apply lookup_insert_ne.
Qed.

Lemma apply_op_lookup mt1 mt2 o :
  mt1 !! op_id o = mt2 !! op_id o →
  apply_op mt1 o !! op_id o = apply_op mt2 o !! op_id o.
Proof.
  intros H. destruct o as [i now|i]; simpl in *.
  - by rewrite !rate_limit_lookup, H.
  - by rewrite !lookup_delete_eq.
Qed.

Lemma apply_op_lookup_ne mt o other :
  op_id o ≠ other → apply_op mt o !! other = mt !! other.
Proof.
  intros H. destruct o as [i now|i]; simpl in *.
  - by apply rate_limit_lookup_ne.
  - by apply lookup_delete_ne.
Qed.

(** X1.  The window of an id depends only on the checks and deletions of
    that id: dropping from a history every operation on other ids leaves
    the id's entry as it was. *)
Theorem replay_isolated (ops : list tracker_op) (sessionId : string) :
  replay ops !! sessionId
  = replay (filter (λ o, op_id o = sessionId) ops) !! sessionId.
Proof.
  unfold replay. induction ops as [|o ops IH] using rev_ind; [done|].
  rewrite filter_app, !foldl_app. simpl.
  rewrite filter_cons, filter_nil. case_decide as Ho; simpl.
  - subst sessionId. by apply apply_op_lookup.
  - by rewrite apply_op_lookup_ne.
Qed.

Lemma ceil_div_mono x y d : 0 < d → x ≤ y → ceil_div x d ≤ ceil_div y d.
Proof.
  intros Hd Hxy. unfold ceil_div.
  assert (- y / d ≤ - x / d) by (apply Z.div_le_mono; lia). lia.
Qed.

Lemma filter_all_length {A} (P : A → Prop) `{!∀ x, Decision (P x)}
    (l : list A) :
  (length l ≤ length (filter P l))%nat → filter P l = l.
Proof.
  induction l as [|x l IH]; [done|]. rewrite filter_cons.
  pose proof (length_filter P l). case_decide; simpl; intros Hlen.
  - f_equal. apply IH. lia.
  - lia.
Qed.

(** X2.  While an id stays rejected its wait never grows: when a check is
    rejected with [r] seconds and a later check of the same id is rejected
    as well, the second wait is at most [r] and the stored window is
    unchanged, so rejected attempts cost nothing. *)
Theorem rejected_wait_never_grows (ops : list tracker_op)
    (sessionId : string) (now later r r' : Z)
    (mt' mt'' : gmap string (list Z)) :
  rate_limit (replay ops) sessionId now = (mt', Rejected r) →
  now ≤ later →
  rate_limit mt' sessionId later = (mt'', Rejected r') →
  r' ≤ r ∧ mt'' = mt'.
Proof.
  unfold rate_limit.
  set (w0 := default [] (replay ops !! sessionId)).
  assert (length w0 ≤ MESSAGE_LIMIT)%nat as Hlen.
  { subst w0. destruct (replay ops !! sessionId) as [w|] eqn:E; simpl.
    - by eapply replay_length.
    - unfold MESSAGE_LIMIT. lia. }
  unfold check. case_decide as Hge; [|intros [= _ ?]; done].
  intros [= <- <-] Hle. rewrite lookup_insert_eq. simpl.
  case_decide as Hge'; [|intros [= _ ?]; done].
  pose proof (length_prune now w0) as Hp.
  assert (prune later (prune now w0) = prune now w0) as Hsame
    by (apply filter_all_length; fold (prune later (prune now w0)); lia).
  rewrite Hsame. intros [= <- <-]. split.
  - destruct (prune now w0) as [|oldest rest]; [done|]. simpl.
    apply ceil_div_mono; lia.
  - by rewrite insert_insert_eq.
Qed.

Lemma rejected_wait_never_grows_witness :
  598 ≤ 599
  ∧ <["s" := replicate 10 0]> (replay ten_at_once)
    = <["s" := replicate 10 0]> (replay ten_at_once).
Proof.
  apply (rejected_wait_never_grows ten_at_once "s" 1000 2000 599 598).
  - vm_compute. reflexivity.
  - lia.
  - vm_compute. reflexivity.
Defined.

Lemma admissions_admitted_elem admitted w times ts :
  ts ∈ (admissions admitted w times).1 → ts ∈ admitted ∨ ts ∈ times.
Proof.
  revert admitted w. induction times as [|t times IH]; intros admitted w;
    simpl; [by left|].
  destruct (check t w) as [w' [|r]]; intros Hin;
    apply IH in Hin as [Hin|Hin]; try (right; by right); [|by left].
  apply elem_of_app in Hin as [Hin|Hin%list_elem_of_singleton]; [by left|].
  subst. right. left.
Qed.

(** With non-decreasing times no pruning tells the stored window from the
    list of all admitted timestamps. *)
Lemma admissions_window_admitted times : ∀ admitted w lo now,
  StronglySorted Z.le times →
  Forall (λ t, lo ≤ t) times →
  Forall (λ t, t ≤ now) times →
  lo ≤ now →
  (∀ now', lo ≤ now' → prune now' w = prune now' admitted) →
  prune now (admissions admitted w times).2
  = prune now (admissions admitted w times).1.
Proof.
  induction times as [|t times IH]; intros admitted w lo now Hs Hlo Hnow Hle Hw;
    simpl; [by apply Hw|].
  apply StronglySorted_inv in Hs as [Hs Hge].
  apply Forall_cons in Hlo as [Hlot Hlo].
  apply Forall_cons in Hnow as [Htnow Hnow].
  unfold check. case_decide as Hfull; simpl.
  - apply (IH _ _ t); [done|done|done|done|].
    intros now' Hnow'. rewrite prune_prune by done. apply Hw. lia.
  - apply (IH _ _ t); [done|done|done|done|].
    intros now' Hnow'. unfold prune at 1 3. rewrite !filter_app.
    fold (prune now' (prune t w)) (prune now' admitted).
    rewrite prune_prune by done. f_equal. apply Hw. lia.
Qed.

Lemma filter_ext_elem {A} (P Q : A → Prop)
    `{!∀ x, Decision (P x)} `{!∀ x, Decision (Q x)} (l : list A) :
  (∀ x, x ∈ l → P x ↔ Q x) → filter P l = filter Q l.
Proof.
  induction l as [|x l IH]; intros Hext; [done|].
  rewrite !filter_cons.
  assert (P x ↔ Q x) as Hx by (apply Hext; left).
  rewrite IH by (intros y Hy; apply Hext; by right).
  destruct (decide (P x)), (decide (Q x)); tauto.
Qed.

(** X3.  The limiter is tight.  After checks of one id at non-decreasing
    times, starting with no window for the id, a further check at [now] is
    admitted exactly when fewer than [MESSAGE_LIMIT] of the timestamps
    admitted so far lie in the trailing interval that ends at [now]. *)
Theorem admitted_iff_room (mt : gmap string (list Z)) (sessionId : string)
    (times : list Z) (now : Z) :
  mt !! sessionId = None →
  Sorted Z.le (times ++ [now]) →
  (rate_limit (serve mt sessionId [] times).2 sessionId now).2 = Accepted
  ↔ (length (trailing now (serve mt sessionId [] times).1)
     < MESSAGE_LIMIT)%nat.
Proof.
  intros Hnone Hs%Sorted_StronglySorted; [|intros ???; lia].
  pose proof (serve_admissions sessionId times mt []) as [Hadm Hwin].
  rewrite Hnone in Hadm, Hwin. simpl in Hadm, Hwin.
  assert (Forall (λ t, t ≤ now) times) as Hnow.
  { apply Forall_forall. intros t Ht.
    by apply (StronglySorted_app_1_elem_of _ _ _ _ _ Hs); [|left]. }
  apply StronglySorted_app_1_l in Hs.
  assert (prune now (default [] ((serve mt sessionId [] times).2 !! sessionId))
          = trailing now (serve mt sessionId [] times).1) as Hsame.
  { rewrite Hwin, Hadm.
    transitivity (prune now (admissions [] [] times).1).
    - destruct times as [|t times]; [done|].
      apply (admissions_window_admitted _ _ _ t); [done| |done| |done].
      + apply StronglySorted_inv in Hs as [_ Hge].
        apply Forall_cons. split; [lia|done].
      + by apply Forall_cons in Hnow as [? _].
    - unfold prune, trailing. apply filter_ext_elem. intros ts Hts.
      apply admissions_admitted_elem in Hts as [Hts|Hts];
        [by apply elem_of_nil in Hts|].
      rewrite Forall_forall in Hnow. specialize (Hnow ts Hts). lia. }
  unfold rate_limit, check. rewrite Hsame.
  case_decide; simpl; split; intros; try done; lia.
Qed.

Lemma admitted_iff_room_witness :
  (rate_limit (serve ∅ "s" [] first_ten).2 "s" 600000).2 = Accepted
  ↔ (length (trailing 600000 (serve ∅ "s" [] first_ten).1)
     < MESSAGE_LIMIT)%nat.
Proof.
  apply (admitted_iff_room ∅ "s" first_ten 600000).
  - reflexivity.
  - unfold first_ten. repeat constructor; lia.
Defined.

(** ** Session lifecycle: start, reconnect, events *)










(** [startSession], executed against the answers of the world. *)
Lemma startSession_run (w : world) past sessionId s :
  let c1 := UseMultiFileAuthState (auth_path sessionId) in
  let c2 := FetchLatestBaileysVersion in
  let s0 := set_files (mkdir_paths (auth_path sessionId)) s in
  run w past (startSession sessionId s)
  = match w past c1 with
    | Thrown e => (s0, Thrown e, [c1])
    | Ok _ =>
        match w (past ++ [c1]) c2 with
        | Thrown e => (s0, Thrown e, [c1; c2])
        | Ok _ =>
            match w (past ++ [c1; c2]) MakeWASocket with
            | Thrown e => (s0, Thrown e, [c1; c2; MakeWASocket])
            | Ok sk =>
                (set_sessions <[sessionId := mkSession sk false ""]> s0,
                 Ok tt, [c1; c2; MakeWASocket])
            end
        end
    end.
Proof.
  intros c1 c2 s0. unfold startSession, mkdirSync. unfold_M.
  change (bind_prog (Done (set_files ?f s) (Ok tt)) ?k)
    with (k tt (set_files f s)). cbv beta.
  fold s0. simpl. fold c1 c2.
  destruct (w past c1) as [[]|e]; simpl; [|done].
  destruct (w (past ++ [c1]) c2) as [[]|e]; simpl; [|done].
  rewrite <- !app_assoc. simpl.
  by destruct (w (past ++ [c1; c2]) MakeWASocket) as [sk|e].
Qed.

Lemma startSession_tracker (w : world) past sessionId s :
  messageTracker (run w past (startSession sessionId s)).1.1
  = messageTracker s.
Proof.
  rewrite startSession_run.
  destruct (w past _) as [[]|e1]; [|done].
  destruct (w (past ++ _) _) as [[]|e2]; [|done].
  by destruct (w (past ++ _) _) as [sk|e3].
Qed.












(** X8.  An event for an id that has no entry in [sessions] (the listener
    of a socket whose session was torn down) makes the listener throw: a QR
    event after the image has been written to disk, an open event at once.
    Neither registry is changed, and the close branch is not reached. *)
Theorem event_without_session_throws (w : world) past s loggedOut sessionId u :
  let out := run w past (connection_update loggedOut sessionId u s) in
  let qrPath := qr_path sessionId in
  sessions s !! sessionId = None →
  (truthy (qr u) = true →
     w past (QrToFile qrPath (default "" (qr u))) = Ok tt →
     (∃ e, out.1.2 = Thrown e)
     ∧ qrPath ∈ files out.1.1
     ∧ sessions out.1.1 = sessions s
     ∧ messageTracker out.1.1 = messageTracker s
     ∧ out.2 = [QrToFile qrPath (default "" (qr u))])
  ∧ (truthy (qr u) = false → connection u = Some Open →
       (∃ e, out.1.2 = Thrown e)
       ∧ sessions out.1.1 = sessions s
       ∧ messageTracker out.1.1 = messageTracker s
       ∧ out.2 = []).
Proof.
  intros out qrPath Hnone. subst out.
  unfold connection_update. fold qrPath.
  unfold set_field, mkdirSync. unfold_M. split.
  - intros Hq Hw. rewrite Hq. simpl. rewrite Hw. simpl. rewrite Hnone. simpl.
    split; [by eexists|]. split; [|done].
    apply elem_of_union. left. by apply elem_of_singleton.
  - intros Hq Ho. rewrite Hq, Ho. simpl. rewrite Hnone. simpl.
    split; [by eexists|]. done.
Qed.

Lemma event_without_session_throws_witness :
  let out :=
    run world_B_missing []
      (connection_update code_loggedOut "gone"
         (mkUpdate None None (Some "2@abc")) st_paired) in
  (truthy (Some "2@abc") = true →
     world_B_missing [] (QrToFile (qr_path "gone") "2@abc") = Ok tt →
     (∃ e, out.1.2 = Thrown e)
     ∧ qr_path "gone" ∈ files out.1.1
     ∧ sessions out.1.1 = sessions st_paired
     ∧ messageTracker out.1.1 = messageTracker st_paired
     ∧ out.2 = [QrToFile (qr_path "gone") "2@abc"])
  ∧ (truthy (Some "2@abc") = false → None = Some Open →
       (∃ e, out.1.2 = Thrown e)
       ∧ sessions out.1.1 = sessions st_paired
       ∧ messageTracker out.1.1 = messageTracker st_paired
       ∧ out.2 = []).
Proof.
  apply (event_without_session_throws world_B_missing [] st_paired
           code_loggedOut "gone" (mkUpdate None None (Some "2@abc"))).
  reflexivity.
Defined.

Lemma alter_present (f : Session → Session) (m : gmap string Session) i x :
  m !! i = Some x → alter f i m = <[i := f x]> m.
Proof.
  intros Hx. apply map_eq. intros j. rewrite lookup_alter, lookup_insert.
  case_decide; [subst; by rewrite Hx|done].
Qed.

(** X9.  On an id that has an entry, a QR event writes the image and stores
    the code in [currentQR], and an open event sets [isConnected]; neither
    changes the socket, the other field, the entries of other ids or the
    rate windows, and the image written earlier stays on disk after the
    open event. *)
Theorem qr_and_open_events (w : world) past s loggedOut sessionId u x :
  let out := run w past (connection_update loggedOut sessionId u s) in
  let qrPath := qr_path sessionId in
  sessions s !! sessionId = Some x →
  (truthy (qr u) = true → connection u = None →
     w past (QrToFile qrPath (default "" (qr u))) = Ok tt →
     out = (mkState
              (<[sessionId :=
                   mkSession (sock x) (isConnected x) (default "" (qr u))]>
                 (sessions s))
              (messageTracker s)
              ({[qrPath]} ∪ ({[qr_dir]} ∪ files s)),
            Ok tt, [QrToFile qrPath (default "" (qr u))]))
  ∧ (truthy (qr u) = false → connection u = Some Open →
       out = (mkState
                (<[sessionId := mkSession (sock x) true (currentQR x)]>
                   (sessions s))
                (messageTracker s) ({[qr_dir]} ∪ files s),
              Ok tt, [])
       ∧ connected out.1.1 sessionId
         = Some (mkSession (sock x) true (currentQR x))).
Proof.
  intros out qrPath Hx. subst out.
  unfold connection_update. fold qrPath.
  unfold set_field, mkdirSync. unfold_M. split.
  - intros Hq Hc Hw. rewrite Hq, Hc. simpl. rewrite Hw. simpl. rewrite Hx.
    simpl. unfold set_sessions, set_files. simpl.
    by rewrite (alter_present _ _ _ _ Hx).
  - intros Hq Ho. rewrite Hq, Ho. simpl. rewrite Hx. simpl.
    unfold set_sessions, set_files. simpl.
    rewrite (alter_present _ _ _ _ Hx).
    split; [done|]. unfold connected. simpl. by rewrite lookup_insert_eq.
Qed.

Lemma qr_and_open_events_witness :
  let out :=
    run world_B_missing []
      (connection_update code_loggedOut "s" (mkUpdate (Some Open) None None)
         st_paired) in
  (truthy None = true → Some Open = None →
     world_B_missing [] (QrToFile (qr_path "s") "") = Ok tt →
     out = (mkState (<["s" := mkSession 3 true ""]> (sessions st_paired))
              (messageTracker st_paired)
              ({[qr_path "s"]} ∪ ({[qr_dir]} ∪ files st_paired)),
            Ok tt, [QrToFile (qr_path "s") ""]))
  ∧ (truthy None = false → Some Open = Some Open →
       out = (mkState (<["s" := mkSession 3 true "2@abc"]> (sessions st_paired))
                (messageTracker st_paired) ({[qr_dir]} ∪ files st_paired),
              Ok tt, [])
       ∧ connected out.1.1 "s" = Some (mkSession 3 true "2@abc")).
Proof.
  apply (qr_and_open_events world_B_missing [] st_paired code_loggedOut "s"
           (mkUpdate (Some Open) None None) (mkSession 3 true "2@abc")).
  reflexivity.
Defined.

(** ** Single send: guards and attachments *)

Lemma send_not_connected s sessionId now req :
  connected s sessionId = None →
  send sessionId now req s = Done s (Ok SessionNotConnected).
Proof.
  intros Hx. unfold send. unfold mbind, M_bind, bind, get.
  change (bind_prog (Done s (Ok s)) ?f) with (f s s). cbv beta. by rewrite Hx.
Qed.

Lemma send_rejected s sessionId now req x :
  connected s sessionId = Some x →
  (MESSAGE_LIMIT
   ≤ length (prune now (default [] (messageTracker s !! sessionId))))%nat →
  send sessionId now req s
  = Done
      (set_messageTracker
         (λ mt, <[sessionId := prune now (default [] (mt !! sessionId))]> mt) s)
      (Ok (RateLimitExceeded
             (retryAfter now
                (prune now (default [] (messageTracker s !! sessionId)))))).
Proof.
  intros Hx Hge. unfold send. unfold mbind, M_bind, bind, get.
  change (bind_prog (Done s (Ok s)) ?f) with (f s s). cbv beta. rewrite Hx.
  unfold rate_limit. rewrite (check_rejected _ _ Hge). done.
Qed.

Lemma post_send_not_connected s sessionId now b :
  connected s sessionId = None →
  post_send sessionId now b s = Done s (Ok SessionNotConnected).
Proof.
  intros Hx. unfold post_send. unfold mbind, M_bind, bind, get.
  change (bind_prog (Done s (Ok s)) ?f) with (f s s). cbv beta. by rewrite Hx.
Qed.

Lemma post_send_rejected s sessionId now b x :
  connected s sessionId = Some x →
  (MESSAGE_LIMIT
   ≤ length (prune now (default [] (messageTracker s !! sessionId))))%nat →
  post_send sessionId now b s
  = Done
      (set_messageTracker
         (λ mt, <[sessionId := prune now (default [] (mt !! sessionId))]> mt) s)
      (Ok (RateLimitExceeded
             (retryAfter now
                (prune now (default [] (messageTracker s !! sessionId)))))).
Proof.
  intros Hx Hge. unfold post_send. unfold mbind, M_bind, bind, get.
  change (bind_prog (Done s (Ok s)) ?f) with (f s s). cbv beta. rewrite Hx.
  unfold rate_limit. rewrite (check_rejected _ _ Hge). done.
Qed.

Lemma post_send_admitted s sessionId now b x :
  connected s sessionId = Some x →
  (length (prune now (default [] (messageTracker s !! sessionId)))
   < MESSAGE_LIMIT)%nat →
  let s1 :=
    set_messageTracker
      (λ mt, <[sessionId :=
                prune now (default [] (mt !! sessionId)) ++ [now]]> mt) s in
  post_send sessionId now b s
  = match jid_of (b_number b) with
    | Thrown typeError => Done s1 (Thrown typeError)
    | Ok jid => send_to (sock x) jid b s1
    end.
Proof.
  intros Hx Hlt. unfold post_send. unfold mbind, M_bind, bind, get.
  change (bind_prog (Done s (Ok s)) ?f) with (f s s). cbv beta. rewrite Hx.
  unfold rate_limit. rewrite (check_admitted _ _ Hlt).
  by destruct (jid_of (b_number b)).
Qed.

(** The part after line 159 always begins with the existence query,
    answers, and leaves the shared state alone. *)
Lemma send_to_run (w : world) past sk jid b s :
  ∃ r tr,
    run w past (send_to sk jid b s) = (s, Ok r, OnWhatsApp sk jid :: tr).
Proof.
  unfold send_to. unfold_M. simpl. set (q := OnWhatsApp sk jid).
  destruct (w past q) as [result|e]; simpl; [|by eexists _, _].
  destruct (first_exists result); simpl; [|by eexists _, _].
  destruct (b_file b) as [[buffer mimetype]|]; simpl.
  - destruct (w (past ++ [q]) _) as [d|e]; simpl; by eexists _, _.
  - destruct (truthy (b_image b)); simpl.
    + destruct (w (past ++ [q]) _) as [bytes|e]; simpl; [|by eexists _, _].
      destruct (w _ _) as [d|e]; simpl; by eexists _, _.
    + destruct (w (past ++ [q]) _) as [d|e]; simpl; by eexists _, _.
Qed.

(** On a body whose [number] is a string the handler is [send]. *)
Lemma post_send_string sessionId now req s :
  post_send sessionId now (body_of req) s = send sessionId now req s.
Proof. reflexivity. Qed.

(** X10.  A single send, on any body, calls a collaborator exactly when
    the session is connected, the check admits the send and [number] has an
    [includes] method (it is a string or an array).  On a session that is
    missing or not connected the answer is 400 and nothing changes, so no
    rate-limit slot is used.  On an admitted send whose [number] has no
    [includes], line 159 throws after the push: the slot is used, no
    collaborator is called and the handler is left by the error without
    having answered.  In every case [sessions], the files and the windows
    of the other ids are left as they were. *)
Theorem send_calls_iff_admitted (w : world) past s sessionId now b :
  let out := run w past (post_send sessionId now b s) in
  let pruned := prune now (default [] (messageTracker s !! sessionId)) in
  (out.2 ≠ []
   ↔ is_Some (connected s sessionId) ∧ (length pruned < MESSAGE_LIMIT)%nat
     ∧ has_includes (b_number b) = true)
  ∧ (connected s sessionId = None → out = (s, Ok SessionNotConnected, []))
  ∧ (∀ typeError,
       is_Some (connected s sessionId) →
       (length pruned < MESSAGE_LIMIT)%nat →
       b_number b = RNoIncludes typeError →
       out = (mkState (sessions s)
                (<[sessionId := pruned ++ [now]]> (messageTracker s))
                (files s),
              Thrown typeError, []))
  ∧ sessions out.1.1 = sessions s
  ∧ files out.1.1 = files s
  ∧ (∀ other, other ≠ sessionId →
       messageTracker out.1.1 !! other = messageTracker s !! other).
Proof.
  intros out pruned. subst out.
  destruct (connected s sessionId) as [x|] eqn:Hx.
  - destruct (decide (length pruned < MESSAGE_LIMIT)%nat) as [Hlt|Hge].
    + rewrite (post_send_admitted _ _ _ _ _ Hx Hlt).
      set (s1 := set_messageTracker _ s).
      destruct (b_number b) as [n|hasSuffix text|e] eqn:Hn; cbn [jid_of].
      * destruct (send_to_run w past (sock x) (to_jid n) b s1)
          as (r & tr & ->). simpl.
        split; [split; [by eauto|done]|]. split; [done|].
        split; [done|]. split; [done|]. split; [done|].
        intros other Hne. by apply lookup_insert_ne.
      * destruct (send_to_run w past (sock x)
                    (if hasSuffix then text else text +:+ suffix) b s1)
          as (r & tr & ->). simpl.
        split; [split; [by eauto|done]|]. split; [done|].
        split; [done|]. split; [done|]. split; [done|].
        intros other Hne. by apply lookup_insert_ne.
      * split; [split; [done|by intros (_ & _ & ?)]|]. split; [done|].
        split; [by intros ? _ _ [= <-]|]. split; [done|]. split; [done|].
        intros other Hne. by apply lookup_insert_ne.
    + rewrite (post_send_rejected _ _ _ _ _ Hx) by (fold pruned; lia). simpl.
      split; [split; [done|by intros (_ & ? & _)]|]. split; [done|].
      split; [by intros ? _ ?|]. split; [done|]. split; [done|].
      intros other Hne. by apply lookup_insert_ne.
  - rewrite (post_send_not_connected _ _ _ _ Hx). simpl.
    split; [split; [done|by intros ([? [=]] & _)]|]. split; [done|].
    split; [by intros ? [? [=]]|]. done.
Qed.

Example send_number_body_run :
  run world_B_missing [] (post_send "s" 1000 send_number_body st_connected)
  = (mkState (sessions st_connected) (<["s" := [1000]]> ∅) ∅,
     Thrown "number.includes is not a function", [])
  ∧ run world_B_missing []
      (post_send "s" 1000 send_no_number_body st_connected)
    = (mkState (sessions st_connected) (<["s" := [1000]]> ∅) ∅,
       Thrown "Cannot read properties of undefined (reading 'includes')", []).
Proof. vm_compute. done. Qed.

(** X11.  A rate-limited send answers 429 without calling a collaborator
    and stores the pruned window, without [now].  The seconds it announces
    are at least 1, and at most 600 when no stored timestamp lies in the
    future. *)
Theorem rate_limited_send (w : world) past s sessionId now req x :
  let w0 := default [] (messageTracker s !! sessionId) in
  let pruned := prune now w0 in
  connected s sessionId = Some x →
  (MESSAGE_LIMIT ≤ length pruned)%nat →
  ∃ r,
    run w past (send sessionId now req s)
    = (mkState (sessions s) (<[sessionId := pruned]> (messageTracker s))
         (files s),
       Ok (RateLimitExceeded r), [])
    ∧ http_status (RateLimitExceeded r) = 429
    ∧ 1 ≤ r
    ∧ (Forall (λ ts, ts ≤ now) w0 → r ≤ 600).
Proof.
  intros w0 pruned Hx Hge. rewrite (send_rejected _ _ _ _ _ Hx Hge).
  fold w0 pruned. exists (retryAfter now pruned).
  split; [done|]. split; [done|].
  destruct pruned as [|oldest rest] eqn:E.
  { simpl in Hge. unfold MESSAGE_LIMIT in Hge. lia. }
  assert (oldest ∈ prune now w0) as [Hin Hold]%elem_of_prune
    by (fold pruned; rewrite E; left).
  simpl.
  pose proof (ceil_div_bounds (TIME_WINDOW - (now - oldest)) 1000 ltac:(lia))
    as [Hlo Hup].
  split; [lia|]. intros Hpast.
  rewrite Forall_forall in Hpast. specialize (Hpast oldest Hin).
  unfold TIME_WINDOW in *. lia.
Qed.

Lemma rate_limited_send_witness :
  ∃ r,
    run world_B_missing [] (send "s" 1500 send_text_A st_at_limit)
    = (mkState (sessions st_at_limit)
         (<["s" := prune 1500 first_ten]> (messageTracker st_at_limit))
         (files st_at_limit),
       Ok (RateLimitExceeded r), [])
    ∧ http_status (RateLimitExceeded r) = 429
    ∧ 1 ≤ r
    ∧ (Forall (λ ts, ts ≤ 1500) first_ten → r ≤ 600).
Proof.
  apply (rate_limited_send world_B_missing [] st_at_limit "s" 1500 send_text_A
           (mkSession 3 true "")).
  - reflexivity.
  - vm_compute. lia.
Defined.

(** X12.  What a single send dispatches to a recipient that exists: with an
    uploaded file, the file's buffer and mimetype with the message as
    caption, whatever the [image] field holds, and nothing is fetched;
    without a file and with an [image] URL, the URL is fetched and the bytes
    are sent with the caption, and when the fetch fails the answer is 500
    and nothing is sent; otherwise the message as text.  The handler sends
    at most once and answers 200 with the acknowledgement or 500 with the
    error of that send. *)
Theorem send_payload_precedence (w : world) past sk req s result :
  let out := run w past (send_after_admission sk req s) in
  let jid := to_jid (number req) in
  let q := OnWhatsApp sk jid in
  let finish (before : list call) (c : content) :=
    match w (past ++ before) (SendMessage sk jid c) with
    | Ok d => (s, Ok (MessageSent d), before ++ [SendMessage sk jid c])
    | Thrown e => (s, Ok (ServerError e), before ++ [SendMessage sk jid c])
    end in
  w past q = Ok result → first_exists result = true →
  out = match file req with
        | Some (buffer, mimetype) =>
            finish [q] (Image buffer (Some mimetype) (message req))
        | None =>
            if truthy (image req) then
              let url := default "" (image req) in
              match w (past ++ [q]) (AxiosGet url) with
              | Ok bytes =>
                  finish [q; AxiosGet url] (Image bytes None (message req))
              | Thrown e => (s, Ok (ServerError e), [q; AxiosGet url])
              end
            else finish [q] (Text (message req))
        end
  ∧ (send_calls out.2 ≤ 1)%nat.
Proof.
  intros out jid q finish Hq Hex. subst out finish.
  unfold send_after_admission. unfold_M. simpl. fold jid q.
  rewrite Hq. simpl. rewrite Hex. simpl. unfold send_calls.
  destruct (file req) as [[buffer mimetype]|]; simpl.
  - destruct (w (past ++ [q]) _) as [d|e]; simpl; split; (done || lia).
  - destruct (truthy (image req)); simpl.
    + destruct (w (past ++ [q]) (AxiosGet _)) as [bytes|e]; simpl;
        [|split; (done || lia)].
      rewrite <- !app_assoc. simpl.
      destruct (w (past ++ [q; AxiosGet _]) _) as [d|e']; simpl;
        split; (done || lia).
    + destruct (w (past ++ [q]) _) as [d|e]; simpl; split; (done || lia).
Qed.

Lemma send_payload_precedence_witness :
  run world_B_missing [] (send_after_admission 3 send_file_and_url st_connected)
  = (st_connected, Ok (MessageSent 7),
     [OnWhatsApp 3 "A@s.whatsapp.net";
      SendMessage 3 "A@s.whatsapp.net"
        (Image "bytes" (Some "image/png") "hi")])
  ∧ (send_calls
       (run world_B_missing []
          (send_after_admission 3 send_file_and_url st_connected)).2 ≤ 1)%nat.
Proof.
  apply (send_payload_precedence world_B_missing [] 3%nat send_file_and_url
           st_connected (Some [true])); reflexivity.
Defined.

(** ** Bulk send: guards, independence of the rate limiter, accounting *)

Lemma send_bulk_invalid s sessionId req :
  ¬ (∃ ns, numbers req = Some ns ∧ ns ≠ [] ∧ bulk_message req ≠ "") →
  send_bulk sessionId req s = Done s (Ok InvalidNumbersOrMessage).
Proof.
  intros Hinv. unfold send_bulk.
  destruct (numbers req) as [[|n rest]|]; [done| |done].
  destruct (String.eqb_spec (bulk_message req) "") as [|Hne]; [done|].
  destruct Hinv. by exists (n :: rest).
Qed.

Lemma send_bulk_not_connected s sessionId req ns :
  numbers req = Some ns → ns ≠ [] → bulk_message req ≠ "" →
  connected s sessionId = None →
  send_bulk sessionId req s = Done s (Ok SessionNotConnected).
Proof.
  intros Hns Hne Hmsg Hx. unfold send_bulk. rewrite Hns.
  destruct ns as [|n rest]; [done|].
  destruct (String.eqb_spec (bulk_message req) "") as [|_]; [done|].
  unfold mbind, M_bind, bind, get. cbv beta iota.
  change (bind_prog (Done s (Ok s)) ?f) with (f s s). cbv beta. by rewrite Hx.
Qed.

Lemma bulk_valid_or_not req :
  (∃ ns, numbers req = Some ns ∧ ns ≠ [] ∧ bulk_message req ≠ "")
  ∨ ¬ (∃ ns, numbers req = Some ns ∧ ns ≠ [] ∧ bulk_message req ≠ "").
Proof.
  destruct (numbers req) as [ns|]; [|right; by intros (? & [=] & _)].
  destruct (decide (ns = [])) as [->|Hne];
    [right; by intros (? & [= <-] & ? & _)|].
  destruct (decide (bulk_message req = "")) as [Hmsg|Hmsg];
    [right; by intros (? & _ & _ & ?)|].
  left. by exists ns.
Qed.

Lemma post_send_bulk_invalid s sessionId b :
  ¬ (∃ rs, b_numbers b = Some rs ∧ rs ≠ [] ∧ b_bulk_message b ≠ "") →
  post_send_bulk sessionId b s = Done s (Ok InvalidNumbersOrMessage).
Proof.
  intros Hinv. unfold post_send_bulk.
  destruct (b_numbers b) as [[|r rest]|]; [done| |done].
  destruct (String.eqb_spec (b_bulk_message b) "") as [|Hne]; [done|].
  destruct Hinv. by exists (r :: rest).
Qed.

Lemma post_send_bulk_not_connected s sessionId b rs :
  b_numbers b = Some rs → rs ≠ [] → b_bulk_message b ≠ "" →
  connected s sessionId = None →
  post_send_bulk sessionId b s = Done s (Ok SessionNotConnected).
Proof.
  intros Hrs Hne Hmsg Hx. unfold post_send_bulk. rewrite Hrs.
  destruct rs as [|r rest]; [done|].
  destruct (String.eqb_spec (b_bulk_message b) "") as [|_]; [done|].
  unfold mbind, M_bind, bind, get. cbv beta iota.
  change (bind_prog (Done s (Ok s)) ?f) with (f s s). cbv beta. by rewrite Hx.
Qed.

Lemma bulk_body_valid_or_not b :
  (∃ rs, b_numbers b = Some rs ∧ rs ≠ [] ∧ b_bulk_message b ≠ "")
  ∨ ¬ (∃ rs, b_numbers b = Some rs ∧ rs ≠ [] ∧ b_bulk_message b ≠ "").
Proof.
  destruct (b_numbers b) as [rs|]; [|right; by intros (? & [=] & _)].
  destruct rs as [|r rest]; [right; by intros (? & [= <-] & ? & _)|].
  destruct (decide (b_bulk_message b = "")) as [Hmsg|Hmsg];
    [right; by intros (? & _ & _ & ?)|].
  left. by exists (r :: rest).
Qed.

(** A list of recipients either has [includes] throughout, or splits at
    the first recipient that has not. *)
Lemma recipients_split (rs : list recipient) :
  (Forall (λ r, has_includes r = true) rs ∧ reached rs = rs)
  ∨ (∃ before e rest,
       rs = before ++ RNoIncludes e :: rest
       ∧ Forall (λ r, has_includes r = true) before
       ∧ reached rs = before).
Proof.
  induction rs as [|r rs IH]; [by left|].
  destruct r as [n|hasSuffix text|e].
  - destruct IH as [[Hall Hre]|(before & e & rest & -> & Hall & Hre)].
    + left. split; [by constructor|]. simpl. by rewrite Hre.
    + right. exists (RString n :: before), e, rest.
      split; [done|]. split; [by constructor|]. simpl. by rewrite Hre.
  - destruct IH as [[Hall Hre]|(before & e & rest & -> & Hall & Hre)].
    + left. split; [by constructor|]. simpl. by rewrite Hre.
    + right. exists (RArray hasSuffix text :: before), e, rest.
      split; [done|]. split; [by constructor|]. simpl. by rewrite Hre.
  - right. by exists [], e, rs.
Qed.

Lemma count_status_cons P e l :
  count_status P (e :: l)
  = ((if P (e_status e) then 1 else 0) + count_status P l)%nat.
Proof.
  unfold count_status. rewrite filter_cons.
  destruct (P (e_status e)); simpl; done.
Qed.

Lemma send_calls_app tr1 tr2 :
  send_calls (tr1 ++ tr2) = (send_calls tr1 + send_calls tr2)%nat.
Proof. unfold send_calls. by rewrite filter_app, length_app. Qed.

Lemma pace_calls_app tr1 tr2 :
  pace_calls (tr1 ++ tr2) = (pace_calls tr1 + pace_calls tr2)%nat.
Proof. unfold pace_calls. by rewrite filter_app, length_app. Qed.

(** What the table says about the calls and the entry of one recipient. *)
Lemma outcome_calls (w : world) past sk msg retry jid n :
  let o := outcome w past sk msg retry jid n in
  let q := OnWhatsApp sk jid in
  let m := SendMessage sk jid (Text msg) in
  e_number o.1 = n
  ∧ head o.2 = Some q
  ∧ filter (λ c, is_query c) o.2 = [q]
  ∧ (send_calls o.2 ≤ if retry then 2 else 1)%nat
  ∧ Forall (λ c, is_send c = true → c = m) o.2
  ∧ ((if is_sent (e_status o.1) then 1 else 0) ≤ send_calls o.2)%nat
  ∧ (pace_calls o.2 + (if is_skipped (e_status o.1) then 1 else 0) = 1)%nat.
Proof.
  unfold outcome, send_calls, pace_calls.
  set (q := OnWhatsApp sk jid). set (m := SendMessage sk jid (Text msg)).
  assert (∀ c, is_send c = true → c = m → is_send c = true → c = m) as _
    by done.
  destruct (w past q) as [[l|]|e];
    [destruct (head l) as [[]|];
       [destruct (w (past ++ [q]) m) as [ack|e1];
          [|destruct retry;
              [destruct (w (past ++ [q; m; Delay 2000]) m) as [ack|e2]|]]
       | |]
    | |];
    simpl;
    (split; [done|]); (split; [done|]); (split; [done|]);
    (split; [first [lia|destruct retry; lia]|]);
    (split; [repeat constructor; done|]); split; lia.
Qed.

(** The table over a whole list: one outcome per recipient reached. *)
Lemma outcomes_accounting (w : world) sk msg retry rs : ∀ past,
  let os := outcomes w past sk msg retry rs in
  Forall2 (recipient_calls sk msg retry) (reached rs) os.*2
  ∧ e_number <$> os.*1 = label <$> reached rs
  ∧ (count_status is_sent os.*1 ≤ send_calls (concat os.*2))%nat
  ∧ (pace_calls (concat os.*2) + count_status is_skipped os.*1
     = length (reached rs))%nat.
Proof.
  induction rs as [|r rest IH]; intros past.
  { simpl. split; [constructor|]. by split. }
  destruct r as [n|hasSuffix text|e]; cbn [outcomes reached jid_of has_includes];
    cbv zeta; [| |simpl; split; [constructor|]; by split].
  - set (o := outcome w past sk msg retry (to_jid n) (label (RString n))).
    destruct (outcome_calls w past sk msg retry (to_jid n) (label (RString n)))
      as (Hn & Hhd & Hq & Hs & Hm & Hsent & Hpace). fold o in Hn, Hhd, Hq, Hs, Hm, Hsent, Hpace.
    destruct (IH (past ++ o.2)) as (Hsegs & Hnum & Hcount & Hp).
    rewrite !fmap_cons. cbn [concat].
    rewrite !count_status_cons, send_calls_app, pace_calls_app.
    split; [constructor; [by exists (to_jid n)|done]|].
    split; [by rewrite Hn, Hnum|]. cbn [length]. split; lia.
  - set (j := if hasSuffix then text else text +:+ suffix).
    set (o := outcome w past sk msg retry j (label (RArray hasSuffix text))).
    destruct (outcome_calls w past sk msg retry j
                (label (RArray hasSuffix text)))
      as (Hn & Hhd & Hq & Hs & Hm & Hsent & Hpace). fold o in Hn, Hhd, Hq, Hs, Hm, Hsent, Hpace.
    destruct (IH (past ++ o.2)) as (Hsegs & Hnum & Hcount & Hp).
    rewrite !fmap_cons. cbn [concat].
    rewrite !count_status_cons, send_calls_app, pace_calls_app.
    split; [constructor; [by exists j|done]|].
    split; [by rewrite Hn, Hnum|]. cbn [length]. split; lia.
Qed.

(** A valid job on a connected session, in one equation: the calls are
    those of the table; the answer is the report of the table when every
    recipient has [includes], and otherwise the handler is left by the
    error of the first recipient that has not. *)
Lemma post_send_bulk_run (w : world) past s sessionId b rs x :
  b_numbers b = Some rs → rs ≠ [] → b_bulk_message b ≠ "" →
  connected s sessionId = Some x →
  let os := outcomes w past (sock x) (b_bulk_message b) (b_retryFailed b) rs in
  let rep := os.*1 in
  (Forall (λ r, has_includes r = true) rs
   ∧ reached rs = rs
   ∧ run w past (post_send_bulk sessionId b s)
     = (s,
        Ok (BulkReport
              (mkSummary (length rs)
                 (count_status is_sent rep + count_status is_failed rep
                  + count_status is_skipped rep)
                 (count_status is_sent rep) (count_status is_failed rep)
                 (count_status is_skipped rep))
              rep),
        concat os.*2))
  ∨ (∃ before e rest,
       rs = before ++ RNoIncludes e :: rest
       ∧ reached rs = before
       ∧ run w past (post_send_bulk sessionId b s)
         = (s, Thrown e, concat os.*2)).
Proof.
  intros Hrs Hne Hmsg Hx os rep. subst rep os.
  rewrite (post_send_bulk_valid s sessionId b rs x) by done.
  rewrite run_bind.
  destruct (recipients_split rs)
    as [[Hall Hre]|(before & e & rest & -> & Hall & Hre)].
  - left. split; [done|]. split; [done|].
    destruct (loop_any_reaches_all w s (sock x) (b_bulk_message b)
                (b_retryFailed b) rs past (mkTally [] 0 0 0) Hall)
      as [-> _]; [done|].
    simpl. by rewrite app_nil_r.
  - right. exists before, e, rest. split; [done|]. split; [done|].
    destruct (loop_any_aborts w s (sock x) (b_bulk_message b)
                (b_retryFailed b) e rest before past (mkTally [] 0 0 0) Hall)
      as [-> ->]. done.
Qed.

(** X13.  A bulk job, on any body, calls a collaborator exactly when
    [numbers] is a non-empty array whose first element has an [includes]
    method, the message is not empty and the session is connected.  The
    request is validated before the session is looked at: an invalid
    request is answered ['Invalid numbers or message'] also on a session
    that is not connected.  In every case, also when the handler is left by
    an error, the shared state is left as it was. *)
Theorem bulk_calls_iff_valid (w : world) past s sessionId b :
  let out := run w past (post_send_bulk sessionId b s) in
  let valid :=
    ∃ rs, b_numbers b = Some rs ∧ rs ≠ [] ∧ b_bulk_message b ≠ "" in
  (out.2 ≠ []
   ↔ ∃ r rest,
       b_numbers b = Some (r :: rest) ∧ b_bulk_message b ≠ ""
       ∧ is_Some (connected s sessionId) ∧ has_includes r = true)
  ∧ (¬ valid → out = (s, Ok InvalidNumbersOrMessage, []))
  ∧ (valid → connected s sessionId = None →
       out = (s, Ok SessionNotConnected, []))
  ∧ out.1.1 = s.
Proof.
  intros out valid. subst out valid.
  destruct (bulk_body_valid_or_not b) as [Hvalid|Hinv].
  2:{ rewrite (post_send_bulk_invalid _ _ _ Hinv). simpl.
      split; [split; [done|]|done].
      intros (r & rest & Hrs & Hmsg & _). destruct Hinv.
      by exists (r :: rest). }
  destruct Hvalid as (rs & Hrs & Hne & Hmsg).
  assert (∃ rs, b_numbers b = Some rs ∧ rs ≠ [] ∧ b_bulk_message b ≠ "")
    as Hvalid by (by exists rs).
  destruct (connected s sessionId) as [x|] eqn:Hx.
  - pose proof (outcomes_accounting w (sock x) (b_bulk_message b)
                  (b_retryFailed b) rs past) as (Hsegs & _).
    destruct (post_send_bulk_run w past s sessionId b rs x Hrs Hne Hmsg Hx)
      as [(_ & _ & ->)|(before & e & rest & _ & _ & ->)]; simpl;
      (split; [|split; [done|by split]]).
    all: destruct rs as [|r rs']; [done|]; rewrite Hrs.
    all: destruct r as [n|hasSuffix text|e']; cbn [reached has_includes] in Hsegs.
    all: try (apply Forall2_cons_inv_l in Hsegs
                as (seg & segs & (jid & _ & Hhd & _) & _ & Heq);
              rewrite Heq; cbn [concat];
              split; [intros _; eexists _, _; by eauto|];
              intros _; by destruct seg).
    all: apply Forall2_nil_inv_l in Hsegs; rewrite Hsegs; simpl.
    all: split; [done|]; by intros (? & ? & [= <- <-] & _ & _ & ?).
  - rewrite (post_send_bulk_not_connected s sessionId b rs) by done. simpl.
    split; [split; [done|by intros (? & ? & _ & _ & [? [=]] & _)]|]. done.
Qed.

(** X14.  A bulk job does not depend on the rate windows and does not
    write them: whatever is done to [messageTracker] beforehand, the job
    answers the same, makes the same calls and leaves the registry as it
    found it.  A full window does not hold a bulk job back. *)
Theorem bulk_ignores_rate_windows (w : world) past s sessionId req
    (f : gmap string (list Z) → gmap string (list Z)) :
  let out := run w past (send_bulk sessionId req s) in
  let out' := run w past (send_bulk sessionId req (set_messageTracker f s)) in
  out'.1.2 = out.1.2
  ∧ out'.2 = out.2
  ∧ out'.1.1 = set_messageTracker f s.
Proof.
  intros out out'. subst out out'. set (s' := set_messageTracker f s).
  assert (connected s' sessionId = connected s sessionId) as Hc by done.
  destruct (bulk_valid_or_not req) as [(ns & Hns & Hne & Hmsg)|Hinv];
    [|by rewrite !(send_bulk_invalid _ _ _ Hinv)].
  destruct (connected s sessionId) as [x|] eqn:Hx.
  - rewrite (send_bulk_valid s sessionId req ns x) by done.
    rewrite (send_bulk_valid s' sessionId req ns x) by (by rewrite ?Hc).
    rewrite !run_bind.
    assert (∀ ns past t,
              (run w past (loop (sock x) (bulk_message req) (retryFailed req)
                             ns t s')).1.2
              = (run w past (loop (sock x) (bulk_message req) (retryFailed req)
                               ns t s)).1.2
              ∧ (run w past (loop (sock x) (bulk_message req) (retryFailed req)
                               ns t s')).2
                = (run w past (loop (sock x) (bulk_message req)
                                 (retryFailed req) ns t s)).2) as Hloop.
    { clear. intros ns. induction ns as [|n rest IH]; intros past t; [done|].
      rewrite !loop_run.
      destruct (process_pushes_one w past s (sock x) (bulk_message req)
                  (retryFailed req) n t) as (t1 & e & tr1 & H1 & _).
      destruct (process_pushes_one w past s' (sock x) (bulk_message req)
                  (retryFailed req) n t) as (t1' & e' & tr1' & H1' & _).
      assert (t1' = t1 ∧ tr1' = tr1) as [-> ->].
      { rewrite process_run in H1, H1'.
        destruct (w past _) as [[l|]|?];
          [destruct (exists_flag (head l));
             [destruct (w (past ++ _) _);
                [|destruct (retryFailed req); [destruct (w (past ++ _) _)|]]|]
          | |]; by simplify_eq. }
      rewrite H1, H1'.
      destruct (loop_pushes_all w s (sock x) (bulk_message req)
                  (retryFailed req) rest (past ++ tr1) t1) as (t2 & tr2 & H2 & _).
      destruct (loop_pushes_all w s' (sock x) (bulk_message req)
                  (retryFailed req) rest (past ++ tr1) t1)
        as (t2' & tr2' & H2' & _).
      specialize (IH (past ++ tr1) t1). rewrite H2, H2' in IH. simpl in IH.
      destruct IH as [[= ->] ->]. by rewrite H2, H2'. }
    destruct (loop_pushes_all w s (sock x) (bulk_message req)
                (retryFailed req) ns past (mkTally [] 0 0 0))
      as (t & tr & H & _).
    destruct (loop_pushes_all w s' (sock x) (bulk_message req)
                (retryFailed req) ns past (mkTally [] 0 0 0))
      as (t' & tr' & H' & _).
    specialize (Hloop ns past (mkTally [] 0 0 0)). rewrite H, H' in Hloop.
    simpl in Hloop. destruct Hloop as [[= ->] ->]. by rewrite H, H'.
  - rewrite (send_bulk_not_connected s sessionId req ns) by done.
    by rewrite (send_bulk_not_connected s' sessionId req ns) by (by rewrite ?Hc).
Qed.

(** X15.  The calls of a valid bulk job on a connected session, on any
    body.  They fall into one run of calls per recipient reached, in the
    order of the input, the recipients reached being those before the first
    one without [includes].  For each of them the existence query of its
    address, on the socket that the session had when the job began, comes
    first and is the only query; what is sent is the message as text to
    that address, at most twice, at most once without [retryFailed].  The
    job answers with a report exactly when it reaches every recipient;
    then no more recipients are counted as sent than sends were made, and
    the pacing delays and the skipped recipients add up to the number of
    recipients. *)
Theorem bulk_call_accounting (w : world) past s sessionId b rs x :
  let out := run w past (post_send_bulk sessionId b s) in
  b_numbers b = Some rs → rs ≠ [] → b_bulk_message b ≠ "" →
  connected s sessionId = Some x →
  ∃ segs,
    out.2 = concat segs
    ∧ Forall2 (recipient_calls (sock x) (b_bulk_message b) (b_retryFailed b))
        (reached rs) segs
    ∧ (reached rs = rs ↔ ∃ sm rep, out.1.2 = Ok (BulkReport sm rep))
    ∧ (∀ sm rep, out.1.2 = Ok (BulkReport sm rep) →
         (sent sm ≤ send_calls out.2)%nat
         ∧ (pace_calls out.2 + skipped sm = length rs)%nat).
Proof.
  intros out Hrs Hne Hmsg Hx. subst out.
  pose proof (outcomes_accounting w (sock x) (b_bulk_message b)
                (b_retryFailed b) rs past) as (Hsegs & _ & Hsent & Hpace).
  destruct (post_send_bulk_run w past s sessionId b rs x Hrs Hne Hmsg Hx)
    as [(_ & Hre & ->)|(before & e & rest & -> & Hre & ->)]; simpl;
    eexists; (split; [done|]); (split; [exact Hsegs|]).
  - split; [split; [by eauto|done]|].
    intros sm rep [= <- <-]. simpl. rewrite Hre in Hpace. done.
  - split; [|done]. split; [|by intros (? & ? & ?)].
    rewrite Hre. intros Heq.
    rewrite <- (app_nil_r before) in Heq at 1.
    by apply app_inv_head in Heq.
Qed.

Lemma bulk_call_accounting_witness :
  let out := run world_flaky [] (post_send_bulk "s" bulk_body_AA_retry
                                   st_connected) in
  ∃ segs,
    out.2 = concat segs
    ∧ Forall2 (recipient_calls 3 "hi" true)
        (reached [RString "A"; RString "A"]) segs
    ∧ (reached [RString "A"; RString "A"] = [RString "A"; RString "A"]
       ↔ ∃ sm rep, out.1.2 = Ok (BulkReport sm rep))
    ∧ (∀ sm rep, out.1.2 = Ok (BulkReport sm rep) →
         (sent sm ≤ send_calls out.2)%nat
         ∧ (pace_calls out.2 + skipped sm
            = length [RString "A"; RString "A"])%nat).
Proof.
  apply (bulk_call_accounting world_flaky [] st_connected "s"
           bulk_body_AA_retry [RString "A"; RString "A"]
           (mkSession 3 true "")).
  - reflexivity.
  - discriminate.
  - discriminate.
  - vm_compute. reflexivity.
Defined.

(** X23.  A valid bulk job on a connected session whose recipients all
    have [includes] answers 200 with a report that holds one entry per
    recipient, in the order of the input, and each entry is what the table
    of outcomes gives for the answers of the collaborators: failed with the
    error's message when the existence query throws or resolves without an
    array, skipped with ['Not registered on WhatsApp'] when the query
    reports that the number does not exist, sent when the first send
    succeeds, and after a failed first send failed, sent on retry or failed
    with ["Retry failed: "].  The calls are those of the table.  [sent],
    [failed] and [skipped] are the numbers of entries with such a status,
    and [processed], their sum, is [total], the number of recipients. *)
Theorem bulk_report_outcomes (w : world) past s sessionId b rs x :
  let os := outcomes w past (sock x) (b_bulk_message b) (b_retryFailed b) rs in
  let rep := os.*1 in
  let sm :=
    mkSummary (length rs) (length rs) (count_status is_sent rep)
      (count_status is_failed rep) (count_status is_skipped rep) in
  b_numbers b = Some rs → rs ≠ [] → b_bulk_message b ≠ "" →
  connected s sessionId = Some x →
  Forall (λ r, has_includes r = true) rs →
  run w past (post_send_bulk sessionId b s)
  = (s, Ok (BulkReport sm rep), concat os.*2)
  ∧ e_number <$> rep = label <$> rs
  ∧ processed sm = (sent sm + failed sm + skipped sm)%nat.
Proof.
  intros os rep sm Hrs Hne Hmsg Hx Hall. subst sm rep os.
  pose proof (outcomes_accounting w (sock x) (b_bulk_message b)
                (b_retryFailed b) rs past) as (_ & Hnum & _).
  set (os := outcomes w past (sock x) (b_bulk_message b) (b_retryFailed b) rs)
    in *.
  assert (count_status is_sent os.*1 + count_status is_failed os.*1
          + count_status is_skipped os.*1 = length rs)%nat as Hsum.
  { rewrite count_status_partition, <- (length_fmap e_number), Hnum.
    destruct (recipients_split rs)
      as [[_ ->]|(before & e & rest & -> & _ & _)];
      [by rewrite length_fmap|].
    apply Forall_app in Hall as [_ Hall].
    by apply Forall_cons in Hall as [? _]. }
  destruct (post_send_bulk_run w past s sessionId b rs x Hrs Hne Hmsg Hx)
    as [(_ & Hre & ->)|(before & e & rest & -> & _ & _)].
  - fold os. rewrite Hsum. split; [done|]. split; [by rewrite Hnum, Hre|].
    simpl. lia.
  - apply Forall_app in Hall as [_ Hall].
    by apply Forall_cons in Hall as [? _].
Qed.

(** The example of the specification: of [A, B, C] only [B] is not
    registered. *)
Lemma bulk_report_outcomes_witness :
  let os := outcomes world_B_missing [] 3 "hi" false
              [RString "A"; RString "B"; RString "C"] in
  let rep := os.*1 in
  let sm :=
    mkSummary 3 3 (count_status is_sent rep) (count_status is_failed rep)
      (count_status is_skipped rep) in
  run world_B_missing [] (post_send_bulk "s" bulk_body_ABC st_connected)
  = (st_connected, Ok (BulkReport sm rep), concat os.*2)
  ∧ e_number <$> rep = ["A"; "B"; "C"]
  ∧ processed sm = (sent sm + failed sm + skipped sm)%nat.
Proof.
  apply (bulk_report_outcomes world_B_missing [] st_connected "s"
           bulk_body_ABC [RString "A"; RString "B"; RString "C"]
           (mkSession 3 true "")).
  - reflexivity.
  - discriminate.
  - discriminate.
  - vm_compute. reflexivity.
  - by repeat constructor.
Defined.

Example bulk_body_ABC_run :
  run world_B_missing [] (post_send_bulk "s" bulk_body_ABC st_connected)
  = (st_connected,
     Ok (BulkReport (mkSummary 3 3 2 0 1)
           [mkEntry "A" StSent None;
            mkEntry "B" StSkipped (Some "Not registered on WhatsApp");
            mkEntry "C" StSent None]),
     [OnWhatsApp 3 "A@s.whatsapp.net";
      SendMessage 3 "A@s.whatsapp.net" (Text "hi"); Delay 500;
      OnWhatsApp 3 "B@s.whatsapp.net";
      OnWhatsApp 3 "C@s.whatsapp.net";
      SendMessage 3 "C@s.whatsapp.net" (Text "hi"); Delay 500]).
Proof. vm_compute. reflexivity. Qed.

(** An array among the recipients is addressed by its rendering. *)
Example bulk_A_array_run :
  run world_B_missing [] (post_send_bulk "s" bulk_A_array st_connected)
  = (st_connected,
     Ok (BulkReport (mkSummary 2 2 2 0 0)
           [mkEntry "A" StSent None; mkEntry "B,C" StSent None]),
     [OnWhatsApp 3 "A@s.whatsapp.net";
      SendMessage 3 "A@s.whatsapp.net" (Text "hi"); Delay 500;
      OnWhatsApp 3 "B,C@s.whatsapp.net";
      SendMessage 3 "B,C@s.whatsapp.net" (Text "hi"); Delay 500]).
Proof. vm_compute. reflexivity. Qed.

(** On a body whose recipients are strings the job is [send_bulk]. *)
Lemma loop_any_strings (w : world) sk msg retry ns : ∀ past t s,
  run w past (loop_any sk msg retry (map RString ns) t s)
  = run w past (loop sk msg retry ns t s).
Proof.
  induction ns as [|n rest IH]; intros past t s; [done|].
  change (map RString (n :: rest)) with (RString n :: map RString rest).
  rewrite loop_any_run, loop_run.
  change (process_any sk msg retry (RString n) t s)
    with (process sk msg retry n t s).
  destruct (run w past (process sk msg retry n t s)) as [[s1 [t1|e]] tr1];
    [|done].
  by rewrite IH.
Qed.

Lemma post_send_bulk_strings (w : world) past sessionId req s :
  run w past (post_send_bulk sessionId (bulk_body_of req) s)
  = run w past (send_bulk sessionId req s).
Proof.
  destruct (bulk_valid_or_not req) as [(ns & Hns & Hne & Hmsg)|Hinv].
  - assert (b_numbers (bulk_body_of req) = Some (map RString ns)) as Hrs
      by (unfold bulk_body_of; simpl; by rewrite Hns).
    assert (map RString ns ≠ []) as Hne' by (by destruct ns).
    destruct (connected s sessionId) as [x|] eqn:Hx.
    + rewrite (send_bulk_valid s sessionId req ns x) by done.
      rewrite (post_send_bulk_valid s sessionId (bulk_body_of req)
                 (map RString ns) x) by done.
      rewrite !run_bind, loop_any_strings, length_map. done.
    + rewrite (send_bulk_not_connected s sessionId req ns) by done.
      by rewrite (post_send_bulk_not_connected s sessionId (bulk_body_of req)
                    (map RString ns)) by done.
  - rewrite (send_bulk_invalid _ _ _ Hinv).
    rewrite post_send_bulk_invalid; [done|].
    intros (rs & Hrs & Hne & Hmsg). apply Hinv.
    unfold bulk_body_of in Hrs. simpl in Hrs, Hmsg.
    destruct (numbers req) as [ns|]; [|done].
    exists ns. injection Hrs as <-. split; [done|]. by destruct ns.
Qed.

Example bulk_AA_retry_run :
  (run world_flaky [] (send_bulk "s" bulk_AA_retry st_connected)).2
  = [OnWhatsApp 3 "A@s.whatsapp.net";
     SendMessage 3 "A@s.whatsapp.net" (Text "hi"); Delay 2000;
     SendMessage 3 "A@s.whatsapp.net" (Text "hi"); Delay 500;
     OnWhatsApp 3 "A@s.whatsapp.net";
     SendMessage 3 "A@s.whatsapp.net" (Text "hi"); Delay 500].
Proof. vm_compute. reflexivity. Qed.

(** X16.  An existence query that resolves without a first entry.  The
    single send reads it with optional chaining and answers 404 both for
    [undefined] and for an empty array.  The bulk loop destructures it: an
    empty array gives a skipped recipient (one entry with the reason
    ['Not registered on WhatsApp'], [skippedCount] up by one) and no pacing
    delay; [undefined] throws into the outer catch and gives a failed
    recipient (one entry with the message of the [TypeError], [failCount]
    up by one), followed by the pacing delay.  In no case is anything
    sent. *)
Theorem query_without_entry (w : world) past s sk req msg retry n t :
  let q := OnWhatsApp sk (to_jid (number req)) in
  let q' := OnWhatsApp sk (to_jid n) in
  (w past q = Ok None ∨ w past q = Ok (Some []) →
     run w past (send_after_admission sk req s)
     = (s, Ok NumberNotRegistered, [q]))
  ∧ (w past q' = Ok (Some []) →
       run w past (process sk msg retry n t s)
       = (s,
          Ok (mkTally
                (report t
                 ++ [mkEntry n StSkipped (Some "Not registered on WhatsApp")])
                (successCount t) (failCount t) (S (skippedCount t))),
          [q']))
  ∧ (w past q' = Ok None →
       ∃ reason,
         run w past (process sk msg retry n t s)
         = (s,
            Ok (mkTally (report t ++ [mkEntry n StFailed (Some reason)])
                  (successCount t) (S (failCount t)) (skippedCount t)),
            [q'; Delay 500])).
Proof.
  intros q q'. split; [|split].
  - intros Hq.
    destruct (send_after_admission_run w past sk req s)
      as (r & tr & Hrun & _ & Hnf). fold q in Hrun, Hnf.
    destruct Hq as [Hq|Hq]; destruct (Hnf _ Hq) as [-> ->]; done.
  - intros Hq. rewrite process_run. fold q'. by rewrite Hq.
  - intros Hq. rewrite process_run. fold q'. rewrite Hq. by eexists.
Qed.

Example query_undefined_runs :
  run world_undefined [] (send "s" 1000 send_text_A st_connected)
  = (mkState (sessions st_connected) (<["s" := [1000]]> ∅) ∅,
     Ok NumberNotRegistered, [OnWhatsApp 3 "A@s.whatsapp.net"])
  ∧ run world_undefined [] (process 3 "hi" true "A" no_tally st_connected)
    = (st_connected,
       Ok (mkTally [mkEntry "A" StFailed (Some not_iterable)] 0 1 0),
       [OnWhatsApp 3 "A@s.whatsapp.net"; Delay 500])
  ∧ run world_empty_array [] (process 3 "hi" true "A" no_tally st_connected)
    = (st_connected,
       Ok (mkTally
             [mkEntry "A" StSkipped (Some "Not registered on WhatsApp")] 0 0 1),
       [OnWhatsApp 3 "A@s.whatsapp.net"]).
Proof. vm_compute. repeat split; reflexivity. Qed.

(** ** Recipient addresses *)

Lemma substring_all (b : string) : String.substring 0 (String.length b) b = b.
Proof. induction b as [|c b IH]; simpl; [done|by rewrite IH]. Qed.

Lemma substring_after (a b : string) :
  String.substring (String.length a) (String.length b) (a +:+ b) = b.
Proof. induction a as [|c a IH]; simpl; [apply substring_all|done]. Qed.

Lemma index_suffix_appended (number : string) :
  is_Some (String.index 0 suffix (number +:+ suffix)).
Proof.
  destruct (String.index 0 suffix (number +:+ suffix)) as [k|] eqn:E;
    [by eexists|].
  exfalso.
  apply (String.index_correct3 0 (String.length number) suffix (number +:+ suffix));
    [done|done|lia|]. apply substring_after.
Qed.

(** X17.  The address that the handlers compute from a recipient always
    contains ["@s.whatsapp.net"], and computing it again changes nothing:
    a recipient given as a full address is used as it is. *)
Theorem to_jid_idempotent (number : string) :
  is_Some (String.index 0 suffix (to_jid number))
  ∧ to_jid (to_jid number) = to_jid number.
Proof.
  assert (is_Some (String.index 0 suffix (to_jid number))) as Hin.
  { unfold to_jid.
    destruct (String.index 0 suffix number) as [k|] eqn:E.
    - rewrite E. by eexists.
    - apply index_suffix_appended. }
  split; [done|]. destruct Hin as [k Hk].
  unfold to_jid at 1. by rewrite Hk.
Qed.

(** ** The pairing image *)

Lemma run_with_alone {A} (w : world) (p : prog A) : ∀ past,
  run_with (λ _ s, s) w past p = run w past p.
Proof.
  induction p as [s r|s c k IH]; intros past; simpl; [done|]. by rewrite IH.
Qed.

Lemma waitForQR_step clock qrPath timeout fuel i s :
  waitForQR clock qrPath timeout (S fuel) i s
  = if decide (clock i - clock 0%nat < timeout) then
      if bool_decide (qrPath ∈ files s) then Done s (Ok (Some true))
      else Await s (Delay 500)
             (λ _ s', waitForQR clock qrPath timeout fuel (S i) s')
    else Done s (Ok (Some false)).
Proof.
  simpl. case_decide; [|done].
  unfold existsSync. unfold_M. simpl. by case_bool_decide.
Qed.

(** The wait from the [i]-th loop test on, other handlers running in
    between. *)
Lemma waitForQR_from env (w : world) clock qrPath fuel : ∀ i past s,
  (∀ k, (1 ≤ k)%nat → clock k + 500 ≤ clock (S k)) →
  (1 ≤ i ≤ 21)%nat → (22 ≤ i + fuel)%nat →
  clock 0%nat + 500 * (Z.of_nat i - 1) ≤ clock i →
  ∃ b k,
    (run_with env w past (waitForQR clock qrPath 10000 fuel i s)).1.2
    = Ok (Some b)
    ∧ (run_with env w past (waitForQR clock qrPath 10000 fuel i s)).2
      = replicate k (Delay 500)
    ∧ (k ≤ 21 - i)%nat
    ∧ (b = true →
         qrPath ∈ files
           (run_with env w past (waitForQR clock qrPath 10000 fuel i s)).1.1)
    ∧ (qrPath ∈ files s → clock i - clock 0%nat < 10000 →
         b = true ∧ k = 0%nat).
Proof.
  induction fuel as [|fuel IH]; intros i past s Hclock Hi Hfuel Hci; [lia|].
  rewrite waitForQR_step. case_decide as Htest.
  - case_bool_decide as Hex; simpl.
    + exists true, 0%nat. repeat split; (done || lia).
    + assert (i ≤ 20)%nat by lia.
      destruct (IH (S i) (past ++ [Delay 500])
                  (env (past ++ [Delay 500]) s) Hclock)
        as (b & k & Hr & Htr & Hk & Hb & _); [lia|lia| |].
      { specialize (Hclock i ltac:(lia)). lia. }
      destruct (run_with env w (past ++ [Delay 500]) _) as [[s1 r1] tr1].
      simpl in *. exists b, (S k). subst. repeat split; (done || lia).
  - exists false, 0%nat. simpl. repeat split; (done || lia).
Qed.

(** X18.  The wait for the pairing image is bounded.  If the clock does
    not run backwards before the first loop test and each 500 ms timer takes
    at least 500 ms, then, whatever other handlers do to the shared state in
    between, [waitForQR] returns after at most 20 timers and no other call;
    it returns [true] only if the image is then on disk, and it returns
    [true] without waiting when the image is there at the first test. *)
Theorem waitForQR_bounded env (w : world) past s clock qrPath fuel :
  let out := run_with env w past (waitForQR clock qrPath 10000 fuel 1 s) in
  clock 0%nat ≤ clock 1%nat →
  (∀ k, (1 ≤ k)%nat → clock k + 500 ≤ clock (S k)) →
  (21 ≤ fuel)%nat →
  ∃ b k,
    out.1.2 = Ok (Some b)
    ∧ out.2 = replicate k (Delay 500)
    ∧ (k ≤ 20)%nat
    ∧ (b = true → qrPath ∈ files out.1.1)
    ∧ (qrPath ∈ files s → clock 1%nat - clock 0%nat < 10000 →
         b = true ∧ k = 0%nat).
Proof.
  intros out H01 Hclock Hfuel. subst out.
  destruct (waitForQR_from env w clock qrPath fuel 1 past s Hclock)
    as (b & k & H1 & H2 & H3 & H4 & H5); [lia|lia|lia|].
  exists b, k. repeat split; try done; try lia; by apply H5.
Qed.

Lemma waitForQR_bounded_witness :
  let out :=
    run_with (λ _ s, s) world_B_missing []
      (waitForQR ticking (qr_path "s") 10000 21 1 st_connected) in
  ∃ b k,
    out.1.2 = Ok (Some b)
    ∧ out.2 = replicate k (Delay 500)
    ∧ (k ≤ 20)%nat
    ∧ (b = true → qr_path "s" ∈ files out.1.1)
    ∧ (qr_path "s" ∈ files st_connected →
       ticking 1 - ticking 0 < 10000 → b = true ∧ k = 0%nat).
Proof.
  apply (waitForQR_bounded (λ _ s, s) world_B_missing [] st_connected ticking
           (qr_path "s") 21).
  - vm_compute. discriminate.
  - intros k Hk. unfold ticking. destruct k; simpl; lia.
  - lia.
Defined.

Example waitForQR_times_out :
  run world_B_missing []
    (waitForQR ticking (qr_path "s") 10000 21 1 st_connected)
  = (st_connected, Ok (Some false), replicate 20 (Delay 500)).
Proof. vm_compute. reflexivity. Qed.

Lemma waitForQR_passive clock qrPath timeout fuel : ∀ i s,
  passive s (waitForQR clock qrPath timeout fuel i s).
Proof.
  induction fuel as [|fuel IH]; intros i s; [done|].
  rewrite waitForQR_step. case_decide; [|done].
  case_bool_decide; [done|]. split; [done|]. intros _ s'. apply IH.
Qed.

(** The wait when no other handler runs in between. *)
Lemma waitForQR_alone (w : world) clock qrPath fuel past s :
  clock 0%nat ≤ clock 1%nat →
  (∀ k, (1 ≤ k)%nat → clock k + 500 ≤ clock (S k)) →
  (21 ≤ fuel)%nat →
  ∃ b k,
    run w past (waitForQR clock qrPath 10000 fuel 1 s)
    = (s, Ok (Some b), replicate k (Delay 500))
    ∧ (k ≤ 20)%nat
    ∧ (qrPath ∈ files s → clock 1%nat - clock 0%nat < 10000 →
         b = true ∧ k = 0%nat)
    ∧ (qrPath ∉ files s → b = false).
Proof.
  intros H01 Hclock Hfuel.
  destruct (waitForQR_from (λ _ s, s) w clock qrPath fuel 1 past s Hclock)
    as (b & k & H1 & H2 & H3 & H4 & H5); [lia|lia|lia|].
  rewrite run_with_alone in H1, H2, H4.
  pose proof (passive_run w _ s past
                (waitForQR_passive clock qrPath 10000 fuel 1 s)) as Hs.
  destruct (run w past (waitForQR clock qrPath 10000 fuel 1 s))
    as [[s1 r1] tr1]. simpl in *. subst.
  exists b, k. split; [done|]. split; [lia|]. split; [done|].
  intros Habs. destruct b; [|done]. by destruct Habs; apply H4.
Qed.

Lemma get_qr_connected clock fuel sessionId s x :
  connected s sessionId = Some x →
  get_qr clock fuel sessionId s = Done s (Ok (Some AlreadyConnected)).
Proof.
  intros Hx. unfold get_qr. unfold mbind, M_bind, bind, get.
  change (bind_prog (Done s (Ok s)) ?f) with (f s s). cbv beta. by rewrite Hx.
Qed.

Lemma get_qr_waiting clock fuel sessionId s x :
  sessions s !! sessionId = Some x → isConnected x = false →
  get_qr clock fuel sessionId s
  = bind_prog (waitForQR clock (qr_path sessionId) 10000 fuel 1 s)
      (qr_answer sessionId).
Proof.
  intros Hx Hc. unfold get_qr. unfold mbind, M_bind, bind, get.
  change (bind_prog (Done s (Ok s)) ?f) with (f s s). cbv beta.
  unfold connected. rewrite Hx, Hc. done.
Qed.

Lemma get_qr_starting clock fuel sessionId s :
  sessions s !! sessionId = None → inherited sessionId = false →
  get_qr clock fuel sessionId s
  = bind_prog (startSession sessionId s)
      (λ _ s', bind_prog (waitForQR clock (qr_path sessionId) 10000 fuel 1 s')
                 (qr_answer sessionId)).
Proof.
  intros Hx Hi. unfold get_qr. unfold mbind, M_bind, bind, get.
  change (bind_prog (Done s (Ok s)) ?f) with (f s s). cbv beta.
  unfold connected. rewrite Hx, Hi. done.
Qed.

Lemma get_qr_inherited clock fuel sessionId s :
  sessions s !! sessionId = None → inherited sessionId = true →
  get_qr clock fuel sessionId s
  = bind_prog (waitForQR clock (qr_path sessionId) 10000 fuel 1 s)
      (qr_answer sessionId).
Proof.
  intros Hx Hi. unfold get_qr. unfold mbind, M_bind, bind, get.
  change (bind_prog (Done s (Ok s)) ?f) with (f s s). cbv beta.
  unfold connected. rewrite Hx, Hi. done.
Qed.

(** X19.  [GET /qr] on an id that has an entry never starts a session.  A
    connected id is answered ['Already connected'] at once.  Otherwise the
    handler waits for the image: it is served at once when it is on disk,
    and when no other handler writes it the answer is 504 after at most 20
    timers of 500 ms.  The shared state is left as it was. *)
Theorem get_qr_existing_session (w : world) past s clock fuel sessionId x :
  let out := run w past (get_qr clock fuel sessionId s) in
  sessions s !! sessionId = Some x →
  clock 0%nat ≤ clock 1%nat →
  (∀ k, (1 ≤ k)%nat → clock k + 500 ≤ clock (S k)) →
  (21 ≤ fuel)%nat →
  (isConnected x = true → out = (s, Ok (Some AlreadyConnected), []))
  ∧ (isConnected x = false → qr_path sessionId ∈ files s →
       clock 1%nat - clock 0%nat < 10000 →
       out = (s, Ok (Some (QrFile (qr_path sessionId))), []))
  ∧ (isConnected x = false → qr_path sessionId ∉ files s →
       ∃ k, (k ≤ 20)%nat
            ∧ out = (s, Ok (Some QrTimeout), replicate k (Delay 500))
            ∧ qr_http_status QrTimeout = 504).
Proof.
  intros out Hx H01 Hclock Hfuel. subst out. split; [|split].
  - intros Hc. rewrite (get_qr_connected _ _ _ _ x); [done|].
    unfold connected. by rewrite Hx, Hc.
  - intros Hc Hin Htest. rewrite (get_qr_waiting _ _ _ _ x Hx Hc), run_bind.
    destruct (waitForQR_alone w clock (qr_path sessionId) fuel past s
                H01 Hclock Hfuel) as (b & k & -> & _ & Hserve & _).
    destruct (Hserve Hin Htest) as [-> ->]. done.
  - intros Hc Habs. rewrite (get_qr_waiting _ _ _ _ x Hx Hc), run_bind.
    destruct (waitForQR_alone w clock (qr_path sessionId) fuel past s
                H01 Hclock Hfuel) as (b & k & -> & Hk & _ & Hno).
    rewrite (Hno Habs). exists k. simpl. by rewrite app_nil_r.
Qed.

Lemma get_qr_existing_session_witness :
  let out := run world_B_missing [] (get_qr ticking 21 "s" st_pairing) in
  (false = true → out = (st_pairing, Ok (Some AlreadyConnected), []))
  ∧ (false = false → qr_path "s" ∈ files st_pairing →
       ticking 1 - ticking 0 < 10000 →
       out = (st_pairing, Ok (Some (QrFile (qr_path "s"))), []))
  ∧ (false = false → qr_path "s" ∉ files st_pairing →
       ∃ k, (k ≤ 20)%nat
            ∧ out = (st_pairing, Ok (Some QrTimeout), replicate k (Delay 500))
            ∧ qr_http_status QrTimeout = 504).
Proof.
  apply (get_qr_existing_session world_B_missing [] st_pairing ticking 21 "s"
           (mkSession 3 false "")).
  - reflexivity.
  - vm_compute. discriminate.
  - intros k Hk. unfold ticking. destruct k; simpl; lia.
  - lia.
Defined.



(** An id that names an inherited property: no collaborator of
    [startSession] is called, and the request times out. *)
Example get_qr_inherited_id_run :
  inherited "constructor" = true
  ∧ run world_B_missing [] (get_qr ticking 21 "constructor" st_connected)
    = (st_connected, Ok (Some QrTimeout), replicate 20 (Delay 500)).
Proof. vm_compute. done. Qed.

Example get_qr_stale_image_run :
  run world_B_missing [] (get_qr ticking 21 "s" st_stale_image)
  = (mkState (<["s" := mkSession 4 false ""]> ∅) ∅
       ({["auth"]} ∪ files st_stale_image),
     Ok (Some (QrFile "qr_codes/s.png")),
     [UseMultiFileAuthState "auth/s"; FetchLatestBaileysVersion; MakeWASocket]).
Proof. vm_compute. reflexivity. Qed.

(** ** The registry under every handler *)

Ltac split_run w :=
  repeat (simpl;
          match goal with
          | |- context [w ?p ?c] => destruct (w p c) as [[]|?]
          | |- context [w ?p ?c] => destruct (w p c) as [?|?]
          | |- context [decide ?P] => destruct (decide P)
          | |- context [bool_decide ?P] => destruct (bool_decide P)
          | |- context [@lookup _ Session _ _ ?i ?m] => destruct (m !! i)
          | |- context [truthy ?o] => destruct (truthy o)
          end).

Lemma connection_update_tracker (w : world) past s loggedOut sessionId u :
  let mt := messageTracker
              (run w past (connection_update loggedOut sessionId u s)).1.1 in
  mt = messageTracker s ∨ mt = delete sessionId (messageTracker s).
Proof.
  unfold connection_update, startSession, set_field, existsSync, unlinkSync,
    rmSync, mkdirSync. unfold_M.
  split_run w; auto.
Qed.

Lemma get_qr_tracker (w : world) past s clock fuel sessionId :
  messageTracker (run w past (get_qr clock fuel sessionId s)).1.1
  = messageTracker s.
Proof.
  destruct (connected s sessionId) as [x|] eqn:Hc.
  { by rewrite (get_qr_connected _ _ _ _ x Hc). }
  destruct (sessions s !! sessionId) as [x|] eqn:Hx.
  - assert (isConnected x = false) as Hf.
    { unfold connected in Hc. rewrite Hx in Hc. by destruct (isConnected x). }
    rewrite (get_qr_waiting _ _ _ _ x Hx Hf), run_bind.
    pose proof (passive_run w _ s past
                  (waitForQR_passive clock (qr_path sessionId) 10000 fuel 1 s))
      as Hs.
    destruct (run w past (waitForQR _ _ _ _ _ s)) as [[s1 [r|e]] tr1];
      simpl in *; by subst.
  - destruct (inherited sessionId) eqn:Hi.
    { rewrite (get_qr_inherited _ _ _ _ Hx Hi), run_bind.
      pose proof (passive_run w _ s past
                    (waitForQR_passive clock (qr_path sessionId) 10000 fuel 1
                       s)) as Hs.
      destruct (run w past (waitForQR _ _ _ _ _ s)) as [[s1 [r|e]] tr1];
        simpl in *; by subst. }
    rewrite (get_qr_starting _ _ _ _ Hx Hi), run_bind.
    pose proof (startSession_tracker w past sessionId s) as Hst.
    destruct (run w past (startSession sessionId s)) as [[s1 [[]|e]] tr1];
      simpl in *; [|done].
    rewrite run_bind.
    pose proof (passive_run w _ s1 (past ++ tr1)
                  (waitForQR_passive clock (qr_path sessionId) 10000 fuel 1 s1))
      as Hs.
    destruct (run w (past ++ tr1) (waitForQR _ _ _ _ _ s1))
      as [[s2 [r|e]] tr2]; simpl in *; by subst.
Qed.

Lemma send_tracker (w : world) past s sessionId now req :
  let mt := messageTracker (run w past (send sessionId now req s)).1.1 in
  mt = messageTracker s ∨ mt = (rate_limit (messageTracker s) sessionId now).1.
Proof.
  simpl. destruct (connected s sessionId) as [x|] eqn:Hx.
  - right. unfold rate_limit, check. case_decide as Hge.
    + by rewrite (send_rejected _ _ _ _ _ Hx Hge).
    + rewrite (send_admitted _ _ _ _ _ Hx) by lia.
      set (s1 := set_messageTracker _ s).
      by destruct (send_after_admission_run w past (sock x) req s1)
        as (r & tr & -> & _).
  - left. by rewrite (send_not_connected _ _ _ _ Hx).
Qed.

Lemma send_bulk_state (w : world) past s sessionId req :
  (run w past (send_bulk sessionId req s)).1.1 = s.
Proof.
  destruct (bulk_valid_or_not req) as [(ns & Hns & Hne & Hmsg)|Hinv];
    [|by rewrite (send_bulk_invalid _ _ _ Hinv)].
  destruct (connected s sessionId) as [x|] eqn:Hx.
  - rewrite (send_bulk_valid s sessionId req ns x) by done.
    destruct (loop_pushes_all w s (sock x) (bulk_message req)
                (retryFailed req) ns past (mkTally [] 0 0 0))
      as (t & tr & Hrun & _).
    by rewrite run_bind, Hrun.
  - by rewrite (send_bulk_not_connected s sessionId req ns).
Qed.

Lemma post_send_tracker (w : world) past s sessionId now b :
  let mt := messageTracker (run w past (post_send sessionId now b s)).1.1 in
  mt = messageTracker s ∨ mt = (rate_limit (messageTracker s) sessionId now).1.
Proof.
  simpl. destruct (connected s sessionId) as [x|] eqn:Hx.
  - right. unfold rate_limit, check. case_decide as Hge.
    + by rewrite (post_send_rejected _ _ _ _ _ Hx Hge).
    + rewrite (post_send_admitted _ _ _ _ _ Hx) by lia.
      set (s1 := set_messageTracker _ s).
      destruct (jid_of (b_number b)) as [jid|e]; [|done].
      by destruct (send_to_run w past (sock x) jid b s1) as (r & tr & ->).
  - left. by rewrite (post_send_not_connected _ _ _ _ Hx).
Qed.

Lemma post_send_bulk_state (w : world) past s sessionId b :
  (run w past (post_send_bulk sessionId b s)).1.1 = s.
Proof.
  destruct (bulk_body_valid_or_not b) as [(rs & Hrs & Hne & Hmsg)|Hinv];
    [|by rewrite (post_send_bulk_invalid _ _ _ Hinv)].
  destruct (connected s sessionId) as [x|] eqn:Hx.
  - by destruct (post_send_bulk_run w past s sessionId b rs x Hrs Hne Hmsg Hx)
      as [(_ & _ & ->)|(before & e & rest & _ & _ & ->)].
  - by rewrite (post_send_bulk_not_connected s sessionId b rs).
Qed.

Lemma handles_windows s s' :
  handles s s' → windows_within_limit s → windows_within_limit s'.
Proof.
  intros [w past loggedOut sessionId u s0|w past clock fuel sessionId s0
         |w past sessionId now req s0|w past sessionId req s0
         |w past sessionId now b s0|w past sessionId b s0] Hs i win.
  - destruct (connection_update_tracker w past s0 loggedOut sessionId u)
      as [->| ->]; [apply Hs|].
    destruct (decide (sessionId = i)) as [->|Hne].
    + by rewrite lookup_delete_eq.
    + rewrite lookup_delete_ne by done. apply Hs.
  - rewrite get_qr_tracker. apply Hs.
  - destruct (send_tracker w past s0 sessionId now req) as [->| ->];
      [apply Hs|].
    destruct (decide (sessionId = i)) as [->|Hne].
    + rewrite rate_limit_lookup. intros [= <-]. apply check_length.
      destruct (messageTracker s0 !! i) as [w0|] eqn:E; simpl.
      * by apply (Hs i).
      * unfold MESSAGE_LIMIT. lia.
    + rewrite rate_limit_lookup_ne by done. apply Hs.
  - rewrite send_bulk_state. apply Hs.
  - destruct (post_send_tracker w past s0 sessionId now b) as [->| ->];
      [apply Hs|].
    destruct (decide (sessionId = i)) as [->|Hne].
    + rewrite rate_limit_lookup. intros [= <-]. apply check_length.
      destruct (messageTracker s0 !! i) as [w0|] eqn:E; simpl.
      * by apply (Hs i).
      * unfold MESSAGE_LIMIT. lia.
    + rewrite rate_limit_lookup_ne by done. apply Hs.
  - rewrite post_send_bulk_state. apply Hs.
Qed.

(** X21.  Whatever sequence of events, QR requests, sends and bulk jobs the
    process handles, one after the other, no rate window ever holds more
    than [MESSAGE_LIMIT] timestamps, provided none did at the start (none
    does when the process starts, the registry being empty). *)
Theorem windows_stay_within_limit (s0 s : State) :
  rtc handles s0 s → windows_within_limit s0 → windows_within_limit s.
Proof.
  induction 1 as [|s1 s2 s3 Hstep _ IH]; [done|].
  intros Hs. apply IH. by eapply handles_windows.
Qed.

Lemma windows_stay_within_limit_witness :
  windows_within_limit
    (run world_B_missing []
       (connection_update code_loggedOut "s" (close_with code_connectionLost)
          (run world_B_missing [] (send "s" 1000 send_text_A st_connected)).1.1)
    ).1.1.
Proof.
  apply (windows_stay_within_limit st_connected).
  - eapply rtc_l; [apply handles_send|]. apply rtc_once, handles_event.
  - intros i win. vm_compute. discriminate.
Defined.



(** On an empty disk the [auth] directory is what pairing and log-out of
    ["t"] leave behind, next to [qr_codes]. *)
Example start_then_logged_out_run :
  files
    (run world_B_missing []
       (connection_update code_loggedOut "t" (close_with code_loggedOut)
          (run world_B_missing []
             (startSession "t" (mkState ∅ ∅ ∅))).1.1)).1.1
  = {["auth"; "qr_codes"]}.
Proof. vm_compute. reflexivity. Qed.

(** The image is served as soon as the QR event of another handler has
    written it. *)
Example get_qr_interleaved_run :
  run_with env_image_after_two world_B_missing []
    (get_qr ticking 21 "s" st_pairing)
  = (set_files (union {[qr_path "s"]}) st_pairing,
     Ok (Some (QrFile "qr_codes/s.png")), [Delay 500; Delay 500]).
Proof. vm_compute. reflexivity. Qed.
